(** * inStrain readComparer: pairwise scaffold comparison

    A shallow embedding of [inStrain/readComparer.py] and the properties of
    its coverage-overlap calculation, population-SNP caller, comparison
    table, scaffold scheduler and genome aggregation.

    Conventions of the embedding:
    - Python integers are [Z]; ratios computed with [/] are exact rationals
      [Q] (the source computes them in binary floating point; every
      comparison below is between the exact values);
    - a NaN cell of a data frame is [None];
    - an exception is a value of [exn] carried by [result];
    - a pandas Series indexed by position is a [gmap Z Z], a Python set of
      positions a [gset Z], a Python dict iterated in insertion order an
      association list. *)

From Stdlib Require Import ZArith QArith Lia.
From stdpp Require Import base option list gmap sets sorting strings.

Open Scope Z_scope.

(** ** Exceptions and fallible computations *)

Inductive exn :=
  | KeyError
  | IndexError
  | ZeroDivisionError
  | ValueError
  | AssertionError
  | WorkerError.

Inductive result (A : Type) :=
  | Ok (a : A)
  | Raise (e : exn).
Arguments Ok {A} a.
Arguments Raise {A} e.

#[global] Instance result_ret : MRet result := λ A a, Ok a.
#[global] Instance result_bind : MBind result := λ A B k m,
  match m with
  | Ok a => k a
  | Raise e => Raise e
  end.

(** [[f(a) for a in l]] where [f] may raise: the first exception wins. *)
Fixpoint rmapM {A B} (f : A → result B) (l : list A) : result (list B) :=
  match l with
  | [] => Ok []
  | a :: l' => b ← f a; bs ← rmapM f l'; Ok (b :: bs)
  end.

(** ** Rational helpers *)

(** [a / b] on Python numbers holding integers, as an exact rational. *)
Definition qdiv (a b : Z) : Q := (inject_Z a / inject_Z b)%Q.

(** ** Coverage overlap: [_calc_mm2overlap] *)

Module CoverageOverlap.

(** [Series.add(other, fill_value=0)]: the index is the union of both
    indices and a missing cell counts as 0. *)
Definition series_add (a b : gmap Z Z) : gmap Z Z :=
  union_with (λ x y, Some (x + y)) a b.

(** [set(cov[(cov >= min_cov)].index)] *)
Definition covered (min_cov : Z) (cov : gmap Z Z) : gset Z :=
  dom (filter (λ kv, min_cov ≤ kv.2) cov).

(** The local variables of one iteration of the loop over [mms]. *)
Record level := {
  lv_mm : Z;
  lv_T1 : gset Z;
  lv_T2 : gset Z;
  coveredInEither : gset Z;
  coveredInBoth : gset Z;
  lv_cov : Q
}.

(** [mms = sorted(list(set(covT1.keys()).union(set(covT2.keys()))))] *)
Definition mms_of (covT1 covT2 : gmap Z (gmap Z Z)) : list Z :=
  merge_sort Z.le (elements (dom covT1 ∪ dom covT2)).

Definition step_cov (covT : gmap Z (gmap Z Z)) (mm : Z) (cov : gmap Z Z)
  : gmap Z Z :=
  match covT !! mm with
  | Some s => series_add cov s
  | None => cov
  end.

Definition overlap_cov (both either : gset Z) : Q :=
  if decide (0 < size either)%nat
  then qdiv (Z.of_nat (size both)) (Z.of_nat (size either))
  else 0%Q.

(** The body of [for mm in mms], threading the running series [cov1] and
    [cov2]. *)
Fixpoint mm_loop (covT1 covT2 : gmap Z (gmap Z Z)) (min_cov : Z)
    (mms : list Z) (cov1 cov2 : gmap Z Z) : list level :=
  match mms with
  | [] => []
  | mm :: rest =>
      let cov1 := step_cov covT1 mm cov1 in
      let cov2 := step_cov covT2 mm cov2 in
      let T1 := covered min_cov cov1 in
      let T2 := covered min_cov cov2 in
      let either := T1 ∪ T2 in
      let both := T1 ∩ T2 in
      {| lv_mm := mm; lv_T1 := T1; lv_T2 := T2;
         coveredInEither := either; coveredInBoth := both;
         lv_cov := overlap_cov both either |}
      :: mm_loop covT1 covT2 min_cov rest cov1 cov2
  end.

Definition levels (covT1 covT2 : gmap Z (gmap Z Z)) (min_cov : Z)
  : list level :=
  mm_loop covT1 covT2 min_cov (mms_of covT1 covT2) ∅ ∅.

(** [_calc_mm2overlap] returns the two dicts [mm2overlap] and
    [mm2coverage], filled in ascending order of [mm]. *)
Definition _calc_mm2overlap (covT1 covT2 : gmap Z (gmap Z Z)) (min_cov : Z)
  : list (Z * gset Z) * list (Z * Q) :=
  let ls := levels covT1 covT2 min_cov in
  (map (λ l, (lv_mm l, coveredInBoth l)) ls,
   map (λ l, (lv_mm l, lv_cov l)) ls).

(** The running cumulative depth of a sample after the levels [mms]. *)
Definition cum_cov (covT : gmap Z (gmap Z Z)) (mms : list Z)
    (cov : gmap Z Z) : gmap Z Z :=
  foldl (λ c mm, step_cov covT mm c) cov mms.

(** Depth contributions are read counts: none is negative. *)
Definition depths_nonneg (covT : gmap Z (gmap Z Z)) : Prop :=
  map_Forall (λ _ (s : gmap Z Z), map_Forall (λ _ d, 0 ≤ d) s) covT.

(** The depth contributions of the levels [ms] at position [p], and the
    cumulative depth they add up to; a position that no level lists has
    none. *)
Definition contributions (covT : gmap Z (gmap Z Z)) (ms : list Z) (p : Z)
  : list Z :=
  omap (λ m, covT !! m ≫= (λ s : gmap Z Z, s !! p)) ms.

Definition cumulative_depth (covT : gmap Z (gmap Z Z)) (ms : list Z)
    (p : Z) : option Z :=
  match contributions covT ms p with
  | [] => None
  | ds => Some (foldr Z.add 0 ds)
  end.

Definition add_contributions (o : option Z) (ds : list Z) : option Z :=
  match o, ds with
  | None, [] => None
  | _, _ => Some (default 0 o + foldr Z.add 0 ds)
  end.

(** The record of an iteration whose running series are [cov1], [cov2]. *)
Definition mk_level (min_cov mm : Z) (cov1 cov2 : gmap Z Z) : level :=
  let T1 := covered min_cov cov1 in
  let T2 := covered min_cov cov2 in
  {| lv_mm := mm; lv_T1 := T1; lv_T2 := T2;
     coveredInEither := T1 ∪ T2; coveredInBoth := T1 ∩ T2;
     lv_cov := overlap_cov (T1 ∩ T2) (T1 ∪ T2) |}.

End CoverageOverlap.

(** ** Generic data-frame operations *)

(** [df.sort_values(col)]: ascending in [key]. *)
Definition key_le {A} (key : A → Z) : relation A := λ a b, key a ≤ key b.

#[global] Instance key_le_dec {A} (key : A → Z) a b :
  Decision (key_le key a b) := Z_le_dec (key a) (key b).

Definition sort_values {A} (key : A → Z) (l : list A) : list A :=
  merge_sort (key_le key) l.

(** [df.drop_duplicates(subset=key, keep='last')]: a row stays iff no later
    row has the same key; the order of the kept rows is unchanged. *)
Fixpoint drop_duplicates_last {A K} `{EqDecision K} (key : A → K)
    (l : list A) : list A :=
  match l with
  | [] => []
  | a :: l' =>
      if decide (key a ∈ map key l')
      then drop_duplicates_last key l'
      else a :: drop_duplicates_last key l'
  end.

(** ** Variant tables and the SNP caller *)

Module SNV.

(** A base letter. [bN] stands for any letter other than A, C, T, G: a
    merged row has no count column for it. *)
Inductive base := bA | bC | bT | bG | bN.

#[global] Instance base_eq_dec : EqDecision base.
Proof. solve_decision. Defined.

(** One row of a sample's [cumulative_snv_table]. The minor-allele count
    column is called [allele_count] in the current schema and [morphia]
    in the legacy one; an absent column is [None]. *)
Record row := {
  scaffold : string;
  position : Z;
  mm : Z;
  conBase : base;
  refBase : base;
  varBase : base;
  baseCoverage : Z;
  count_A : Z;
  count_C : Z;
  count_T : Z;
  count_G : Z;
  allele_count : option Z;
  morphia : option Z
}.

(** [row['{0}'.format(b)]] for a per-base count column. *)
Definition count_of (b : base) (r : row) : result Z :=
  match b with
  | bA => Ok (count_A r)
  | bC => Ok (count_C r)
  | bT => Ok (count_T r)
  | bG => Ok (count_G r)
  | bN => Raise KeyError
  end.

(** A row of the outer join on [position]: a side without a variant row
    holds NaN in every column of that side. *)
Record joined := {
  j_position : Z;
  side_1 : option row;
  side_2 : option row
}.

(** A row of [Mdb]. *)
Record merged := {
  m_row : joined;
  consensus_SNP : bool;
  population_SNP : bool;
  m_mm : Z
}.

(** [call_con_snps]: [row['conBase_1'] != row['conBase_2']]; NaN differs
    from everything. *)
Definition call_con_snps (r : joined) : bool :=
  match side_1 r, side_2 r with
  | Some r1, Some r2 => negb (bool_decide (conBase r1 = conBase r2))
  | _, _ => true
  end.

(** [is_present]: [model[total]] is a lookup in the NullModel, whose
    lookup is total (a default for every depth off the table); the
    division raises on a zero [total] once the first conjunct holds. *)
Definition is_present (counts total : Z) (model : Z → Z) (min_freq : Q)
  : result bool :=
  if bool_decide (model total ≤ counts) then
    if bool_decide (total = 0) then Raise ZeroDivisionError
    else Ok (Qle_bool min_freq (qdiv counts total))
  else Ok false.

(** The look-up of one side's count of base [b] followed by the present
    test against that side's depth. *)
Definition base_present (b : base) (side : row) (model : Z → Z)
    (min_freq : Q) : result bool :=
  count ← count_of b side;
  is_present count (baseCoverage side) model min_freq.

(** The minor-allele test at the end of [call_pop_snps]. The merge
    suffixes a column with [_1]/[_2] only when both tables have it, so
    ['allele_count_1' in row] holds iff both sides carry the column. *)
Definition shared_minor (r1 r2 : row) : bool :=
  match allele_count r1, allele_count r2 with
  | Some a1, Some a2 =>
      bool_decide (1 < a1) && bool_decide (1 < a2)
      && bool_decide (varBase r1 = varBase r2)
  | _, _ =>
      match morphia r1, morphia r2 with
      | Some m1, Some m2 =>
          bool_decide (1 < m1) && bool_decide (1 < m2)
          && bool_decide (varBase r1 = varBase r2)
      | _, _ => false
      end
  end.

(** [call_pop_snps]. The [try]/[except] around the first look-up swallows
    any exception of that look-up (the source prints the row). *)
Definition call_pop_snps (r : joined) (model : Z → Z) (min_freq : Q)
  : result bool :=
  match side_1 r, side_2 r with
  | None, None => Raise KeyError
  | None, Some r2 =>
      p ← base_present (refBase r2) r2 model min_freq;
      Ok (negb p)
  | Some r1, None =>
      p ← base_present (refBase r1) r1 model min_freq;
      Ok (negb p)
  | Some r1, Some r2 =>
      if bool_decide (conBase r1 = conBase r2) then Ok false
      else
        match base_present (conBase r1) r2 model min_freq with
        | Ok true => Ok false
        | _ =>
            p ← base_present (conBase r2) r1 model min_freq;
            if (p : bool) then Ok false
            else Ok (negb (shared_minor r1 r2))
        end
  end.

(** [SNPtable[[(p in covs) for p in SNPtable['position'].values]]
      .drop_duplicates(subset=['position'], keep='last')]
    and the blank table for an empty input. *)
Definition s_all (SNPtable : list row) (covs : gset Z) : list row :=
  if decide (0 < length SNPtable)%nat
  then drop_duplicates_last position
         (filter (λ r, position r ∈ covs) SNPtable)
  else [].

Definition at_position (p : Z) (s : list row) : option row :=
  head (filter (λ r, position r = p) s).

(** [pd.merge(s1_all, s2_all, on='position', how='outer')]: one row per
    position of either table, in ascending order of position. *)
Definition merge_outer (s1 s2 : list row) : list joined :=
  let keys :=
    merge_sort Z.le
      (elements (list_to_set (map position s1) ∪
                 list_to_set (map position s2) : gset Z)) in
  map (λ p, {| j_position := p;
               side_1 := at_position p s1;
               side_2 := at_position p s2 |}) keys.

(** One iteration of [for mm, cov_arr in mm2overlap.items()]. *)
Definition snp_level (SNPtable1 SNPtable2 : list row) (model : Z → Z)
    (min_freq : Q) (mm : Z) (cov_arr : gset Z) : result (list merged) :=
  let covs := cov_arr in
  let s1_all := s_all SNPtable1 covs in
  let s2_all := s_all SNPtable2 covs in
  if decide (length s1_all = 0%nat ∧ length s2_all = 0%nat) then Ok []
  else
    rmapM (λ r : joined,
      let con := call_con_snps r in
      pop ← call_pop_snps r model min_freq;
      Ok {| m_row := r; consensus_SNP := con; population_SNP := pop;
            m_mm := mm |})
      (merge_outer s1_all s2_all).

(** [_calc_SNP_count_alternate]; [generate_snp_model] builds the NullModel
    for the false-discovery rate [fdr]. *)
Definition _calc_SNP_count_alternate (generate_snp_model : Q → Z → Z)
    (SNPtable1 SNPtable2 : list row) (mm2overlap : list (Z * gset Z))
    (min_freq fdr : Q) : result (list merged) :=
  let model_to_use := generate_snp_model fdr in
  dbs ← rmapM (λ '((mm, cov_arr) : Z * gset Z),
           snp_level SNPtable1 SNPtable2 model_to_use min_freq mm cov_arr)
         mm2overlap;
  Ok (concat dbs).

(** The present test as a truth value:
    count ≥ threshold(depth) and count/depth ≥ min-frequency. *)
Definition present (counts total : Z) (model : Z → Z) (min_freq : Q)
  : bool :=
  bool_decide (model total ≤ counts)
  && Qle_bool min_freq (qdiv counts total).

(** The row the specification attributes to a sample without a variant
    at a position: consensus equals reference and every read of the
    sample's [depth] supports the reference base. *)
Definition sentinel_row (scaff : string) (pos : Z) (ref : base)
    (depth : Z) : row :=
  {| scaffold := scaff; position := pos; mm := 0;
     conBase := ref; refBase := ref; varBase := ref;
     baseCoverage := depth;
     count_A := if bool_decide (ref = bA) then depth else 0;
     count_C := if bool_decide (ref = bC) then depth else 0;
     count_T := if bool_decide (ref = bT) then depth else 0;
     count_G := if bool_decide (ref = bG) then depth else 0;
     allele_count := Some 1; morphia := None |}.

(** The one-sided rule as the specification words it: the sentinel
    sample's count of the other sample's consensus base, tested at the
    sentinel sample's depth; present means not a SNP. *)
Definition spec_one_sided_pop_snp (sentinel other : row)
    (model : Z → Z) (min_freq : Q) : result bool :=
  p ← base_present (conBase other) sentinel model min_freq;
  Ok (negb p).

Definition pos_of (m : merged) : Z := j_position (m_row m).

End SNV.

(** ** Configuration: the keyword arguments *)

(** [kwargs]/[vars(args)]: an option that the caller did not supply is
    [None]; [kwargs.get(k, d)] is [default d]. *)
Record Kwargs := {
  kw_processes : option Z;
  kw_min_cov : option Z;
  kw_min_freq : option Q;
  kw_fdr : option Q;
  kw_store_coverage_overlap : option bool;
  kw_store_mismatch_locations : option bool;
  kw_include_self_comparisons : option bool;
  kw_greedy_clustering : option bool;
  kw_scaffolds : option (list string);
  kw_g_ani : option Q;
  kw_g_cov : option Q;
  kw_g_mm : option Z
}.

Definition no_kwargs : Kwargs :=
  {| kw_processes := None; kw_min_cov := None; kw_min_freq := None;
     kw_fdr := None; kw_store_coverage_overlap := None;
     kw_store_mismatch_locations := None;
     kw_include_self_comparisons := None; kw_greedy_clustering := None;
     kw_scaffolds := None; kw_g_ani := None; kw_g_cov := None;
     kw_g_mm := None |}.

(** ** The comparison table *)

Module Cmp.

(** One row of [Cdb]; NaN in [popANI]/[conANI] is [None]. *)
Record row := {
  mm : Z;
  scaffold : string;
  name1 : string;
  name2 : string;
  coverage_overlap : Q;
  compared_bases_count : Z;
  percent_genome_compared : Q;
  length : Z;
  consensus_SNPs : Z;
  population_SNPs : Z;
  popANI : option Q;
  conANI : option Q
}.

End Cmp.

(** What the ANI columns of a row must hold: the two ratios, within [0,1],
    when the compared-base count is positive, and NaN in both when it is
    0. *)
Definition ani_row_spec (r : Cmp.row) : Prop :=
  let b := Cmp.compared_bases_count r in
  (0 < b →
     Cmp.conANI r
       = Some (inject_Z (b - Cmp.consensus_SNPs r) / inject_Z b)%Q ∧
     Cmp.popANI r
       = Some (inject_Z (b - Cmp.population_SNPs r) / inject_Z b)%Q ∧
     (0 <= inject_Z (b - Cmp.consensus_SNPs r) / inject_Z b)%Q ∧
     (inject_Z (b - Cmp.consensus_SNPs r) / inject_Z b <= 1)%Q ∧
     (0 <= inject_Z (b - Cmp.population_SNPs r) / inject_Z b)%Q ∧
     (inject_Z (b - Cmp.population_SNPs r) / inject_Z b <= 1)%Q) ∧
  (b = 0 → Cmp.conANI r = None ∧ Cmp.popANI r = None) ∧
  0 ≤ b.

(** [len(mdb[mdb[flag] == True])] for [mdb = Mdb[Mdb['mm'] == mm]]. *)
Definition count_flag (flag : SNV.merged → bool) (mm : Z)
    (Mdb : list SNV.merged) : Z :=
  Z.of_nat (List.length
    (filter (λ m, flag m = true) (filter (λ m, SNV.m_mm m = mm) Mdb))).

(** One iteration of the loop of [_update_overlap_table]. *)
Definition overlap_row (scaffold : string) (mm2coverage : gmap Z Q)
    (Mdb : list SNV.merged) (name1 name2 : string) (mLen : Z)
    (mm : Z) (overlap : gset Z) : result Cmp.row :=
  let bases := Z.of_nat (size overlap) in
  cov ← match mm2coverage !! mm with
        | Some c => Ok c
        | None => Raise KeyError
        end;
  pgc ← (if bool_decide (mLen = 0) then Raise ZeroDivisionError
         else Ok (qdiv bases mLen));
  let snps := count_flag SNV.consensus_SNP mm Mdb in
  let popsnps := count_flag SNV.population_SNP mm Mdb in
  Ok {| Cmp.mm := mm; Cmp.scaffold := scaffold;
        Cmp.name1 := name1; Cmp.name2 := name2;
        Cmp.coverage_overlap := cov;
        Cmp.compared_bases_count := bases;
        Cmp.percent_genome_compared := pgc;
        Cmp.length := mLen;
        Cmp.consensus_SNPs := snps;
        Cmp.population_SNPs := popsnps;
        Cmp.popANI :=
          if bool_decide (bases = 0) then None
          else Some (qdiv (bases - popsnps) bases);
        Cmp.conANI :=
          if bool_decide (bases = 0) then None
          else Some (qdiv (bases - snps) bases) |}.

(** [_update_overlap_table]: the rows are appended to [table]. *)
Definition _update_overlap_table (table : list Cmp.row) (scaffold : string)
    (mm2overlap : list (Z * gset Z)) (mm2coverage : gmap Z Q)
    (Mdb : list SNV.merged) (name1 name2 : string) (mLen : Z)
  : result (list Cmp.row) :=
  rows ← rmapM (λ '((mm, overlap) : Z * gset Z),
            overlap_row scaffold mm2coverage Mdb name1 name2 mLen mm overlap)
          mm2overlap;
  Ok (table ++ rows).

(** The dict [mm2coverage] as filled by the loop of [_calc_mm2overlap]. *)
Definition mm2coverage_dict (d : list (Z * Q)) : gmap Z Q :=
  foldl (λ m kv, <[kv.1 := kv.2]> m) ∅ d.

(** ** Comparing one scaffold: [compare_scaffold] *)

(** What the comparison reads of a sample's SNVprofile. *)
Record SNVprofile := {
  bam_loc : string;
  covT : gmap string (gmap Z (gmap Z Z));
  cumulative_snv_table : list SNV.row;
  scaffold2length : list (string * Z)
}.

(** A row of the retained SNP-location table. *)
Record SNPloc := {
  loc_row : SNV.merged;
  loc_name1 : string;
  loc_name2 : string;
  loc_scaffold : string
}.

(** What a worker hands back: the 4-element list
    [[Cdb, Mdb, pair2mm2covOverlap, tag]] of [compare_scaffold], or the
    one-column frame [pd.DataFrame({'Failed':[True]})] of
    [scaffold_profile_wrapper]. *)
Inductive ScaffProfile :=
  | Profile (Cdb : list Cmp.row) (Mdb : list SNPloc)
            (pair2mm2cov : gmap string (list (Z * gset Z))) (tag : string)
  | FailedMarker.

(** [_get_SNP_table]; [name2SNVprofile] is the module-level dict that
    [parse_validate] fills, [None] while it is not in [globals()]. *)
Definition _get_SNP_table
    (name2SNVprofile : option (gmap string (list SNV.row)))
    (IS : SNVprofile) (scaffold name : string) : result (list SNV.row) :=
  db ← match name2SNVprofile with
       | Some g =>
           match g !! name with
           | Some db => Ok db
           | None => Raise KeyError
           end
       | None => Ok (cumulative_snv_table IS)
       end;
  if decide (0 < List.length db)%nat then
    let db := filter (λ r, SNV.scaffold r = scaffold) db in
    if decide (List.length db = 0%nat) then Ok []
    else Ok (sort_values SNV.mm db)
  else Ok [].

(** [enumerate(l, 1)] *)
Definition enumerate1 {A} (l : list A) : list (Z * A) :=
  imap (λ i a, (Z.of_nat i + 1, a)) l.

(** ['-vs-'.join(sorted([name1, name2]))] *)
Definition pair_key (name1 name2 : string) : string :=
  if String.leb name1 name2
  then name1 +:+ "-vs-" +:+ name2
  else name2 +:+ "-vs-" +:+ name1.

(** The state of the double loop over sample pairs. *)
Record pair_state := {
  table : list Cmp.row;
  snpLocs : list (list SNPloc);
  pair2mm2covOverlap : gmap string (list (Z * gset Z))
}.

Section compare_scaffold.

Variable generate_snp_model : Q → Z → Z.
Variable name2SNVprofile : option (gmap string (list SNV.row)).

(** The body of the inner loop for one pair that is not skipped. *)
Definition compare_pair (scaffold : string) (mLen : Z) (min_cov : Z)
    (min_freq fdr : Q) (store_coverage store_mm_locations : bool)
    (st : pair_state)
    (s1 s2 : gmap Z (gmap Z Z) * list SNV.row * string)
  : result pair_state :=
  let '(covT1, SNPtable1_ori, name1) := s1 in
  let '(covT2, SNPtable2_ori, name2) := s2 in
  let '(mm2overlap, mm2coverage) :=
    CoverageOverlap._calc_mm2overlap covT1 covT2 min_cov in
  Mdb ← SNV._calc_SNP_count_alternate generate_snp_model
          SNPtable1_ori SNPtable2_ori mm2overlap min_freq fdr;
  table' ← _update_overlap_table (table st) scaffold mm2overlap
             (mm2coverage_dict mm2coverage) Mdb name1 name2 mLen;
  Ok {| table := table';
        snpLocs :=
          if store_mm_locations
          then snpLocs st ++
               [map (λ m, {| loc_row := m; loc_name1 := name1;
                             loc_name2 := name2;
                             loc_scaffold := scaffold |}) Mdb]
          else snpLocs st;
        pair2mm2covOverlap :=
          if store_coverage
          then <[pair_key name1 name2 := mm2overlap]>
                 (pair2mm2covOverlap st)
          else pair2mm2covOverlap st |}.

(** The pairs the double loop does not skip, in the order it meets
    them: [i <= j], and [i < j] unless self-comparisons are on. *)
Definition pairs_to_compare {A} (include_self_comparisons : bool)
    (samples : list A) : list (A * A) :=
  flat_map (λ '((i, a) : Z * A),
    omap (λ '((j, b) : Z * A),
      if bool_decide (j < i) then None
      else if negb include_self_comparisons && bool_decide (i = j)
           then None
           else Some (a, b))
      (enumerate1 samples))
    (enumerate1 samples).

Fixpoint run_pairs {A} (f : pair_state → A → A → result pair_state)
    (st : pair_state) (ps : list (A * A)) : result pair_state :=
  match ps with
  | [] => Ok st
  | (a, b) :: ps' => st' ← f st a b; run_pairs f st' ps'
  end.

(** Loading [covT] and the SNP table of every sample that has the
    scaffold. *)
Definition load_sample (scaffold : string) (IS : SNVprofile)
    (name : string)
  : result (option (gmap Z (gmap Z Z) * list SNV.row * string)) :=
  match covT IS !! scaffold with
  | None => Ok None
  | Some c =>
      db ← _get_SNP_table name2SNVprofile IS scaffold name;
      Ok (Some (c, db, name))
  end.

Definition load_samples (scaffold : string) (names : list string)
    (sProfiles : list SNVprofile)
  : result (list (gmap Z (gmap Z Z) * list SNV.row * string)) :=
  loaded ← rmapM (λ '((IS, name) : SNVprofile * string),
              load_sample scaffold IS name)
            (zip sProfiles names);
  Ok (omap id
        (loaded : list (option (gmap Z (gmap Z Z) * list SNV.row * string)))).

Definition compare_scaffold (scaffold : string) (names : list string)
    (sProfiles : list SNVprofile) (mLen : Z) (kwargs : Kwargs)
  : result ScaffProfile :=
  let min_cov := default 5 (kw_min_cov kwargs) in
  let min_freq := default (inject_Z 5) (kw_min_freq kwargs) in
  let fdr := default (1 # 1000000)%Q (kw_fdr kwargs) in
  let store_coverage := default false (kw_store_coverage_overlap kwargs) in
  let store_mm_locations :=
    default false (kw_store_mismatch_locations kwargs) in
  let include_self_comparisons :=
    default false (kw_include_self_comparisons kwargs) in
  samples ← load_samples scaffold names sProfiles;
  if decide (List.length samples < 2)%nat then
    Ok (Profile [] [] ∅ ("skip_" +:+ scaffold))
  else
    st ← run_pairs
           (compare_pair scaffold mLen min_cov min_freq fdr
              store_coverage store_mm_locations)
           {| table := []; snpLocs := []; pair2mm2covOverlap := ∅ |}
           (pairs_to_compare include_self_comparisons samples);
    Ok (Profile (table st) (concat (snpLocs st))
                (pair2mm2covOverlap st) scaffold).

End compare_scaffold.

(** ** Scheduling the scaffolds: [compare_scaffolds] *)

(** The two executors: [ProcessPoolExecutor] for the first pass and
    [ThreadPoolExecutor] for the retry. *)
Inductive pool := ProcessPool | ThreadPool.

(** [profile_scaffold_command]: the arguments of one task. *)
Record cmd := {
  cmd_scaffold : string;
  cmd_names : list string;
  cmd_sProfiles : list SNVprofile;
  cmd_arguments : Kwargs;
  cmd_mLen : Z
}.

(** [s[3]]: the fourth element of the list, and a [KeyError] on the
    one-column failure frame, which has no column [3]. *)
Definition item3 (s : ScaffProfile) : result string :=
  match s with
  | Profile _ _ _ tag => Ok tag
  | FailedMarker => Raise KeyError
  end.

(** [len(s)]: four elements of the list, one row of the failure frame. *)
Definition len (s : ScaffProfile) : Z :=
  match s with
  | Profile _ _ _ _ => 4
  | FailedMarker => 1
  end.

(** [t[:4] == 'skip'] and [t[5:]] *)
Definition is_skip (t : string) : bool :=
  bool_decide (String.substring 0 4 t = "skip").
Definition after_skip (t : string) : string :=
  String.substring 5 (String.length t) t.

Section compare_scaffolds.

Variable generate_snp_model : Q → Z → Z.
Variable name2SNVprofile : option (gmap string (list SNV.row)).
(** Whether the future of a scaffold's task raises in [f.result()] on
    the given executor (the worker died, the task could not be sent). *)
Variable future_raises : pool → string → bool.

Definition iterate_commands (names : list string)
    (sProfiles : list SNVprofile) (s2l : gmap string Z)
    (scaffolds_to_compare : list string) (kwargs : Kwargs)
  : result (list cmd) :=
  rmapM (λ scaff : string,
    match s2l !! scaff with
    | Some l =>
        Ok {| cmd_scaffold := scaff; cmd_names := names;
              cmd_sProfiles := sProfiles; cmd_arguments := kwargs;
              cmd_mLen := l |}
    | None => Raise KeyError
    end) scaffolds_to_compare.

(** [scaffold_profile_wrapper]: any exception of [compare_scaffold]
    becomes the failure frame. *)
Definition scaffold_profile_wrapper (c : cmd) : ScaffProfile :=
  match compare_scaffold generate_snp_model name2SNVprofile
          (cmd_scaffold c) (cmd_names c) (cmd_sProfiles c) (cmd_mLen c)
          (cmd_arguments c) with
  | Ok r => r
  | Raise _ => FailedMarker
  end.

(** The first pass: with [p > 1] the tasks go to the process pool and a
    future that raises is logged and leaves no result; otherwise the
    wrapper is called in-process for every command. Results are taken in
    submission order. *)
Definition first_pass (p : Z) (cmds : list cmd) : list ScaffProfile :=
  if bool_decide (1 < p) then
    omap (λ c, if future_raises ProcessPool (cmd_scaffold c) then None
               else Some (scaffold_profile_wrapper c)) cmds
  else map scaffold_profile_wrapper cmds.

(** [set(scaffolds_to_compare) - set([s[3] ...]) - skipped] *)
Definition failed_scaffs_of (scaffolds_to_compare tags skipped
    : list string) : list string :=
  remove_dups
    (filter (λ s, (s ∉ tags) ∧ (s ∉ skipped)) scaffolds_to_compare).

(** The retry on the thread pool; [f.result()] is not guarded there. *)
Definition retry_pass (p : Z) (cmds : list cmd)
  : result (list ScaffProfile) :=
  if bool_decide (p ≤ 0) then Raise ValueError
  else
    rmapM (λ c, if future_raises ThreadPool (cmd_scaffold c)
                then Raise WorkerError
                else Ok (scaffold_profile_wrapper c)) cmds.

(** The profiles whose tables enter the output: four elements, not a
    skip tag. *)
Definition usable (s : ScaffProfile)
  : option (list Cmp.row * list SNPloc
            * gmap string (list (Z * gset Z)) * string) :=
  if bool_decide (len s ≠ 4) then None
  else
    match s with
    | Profile Cdb Mdb cov tag =>
        if is_skip tag then None else Some (Cdb, Mdb, cov, tag)
    | FailedMarker => None
    end.

Definition compare_scaffolds (names : list string)
    (Sprofiles : list SNVprofile) (scaffolds_to_compare : list string)
    (s2l : gmap string Z) (kwargs : Kwargs)
  : result (list Cmp.row * list SNPloc
            * gmap string (gmap string (list (Z * gset Z)))) :=
  let p := default 6 (kw_processes kwargs) in
  cmds ← iterate_commands names Sprofiles s2l scaffolds_to_compare kwargs;
  let ScaffProfiles := first_pass p cmds in
  tags ← rmapM item3 ScaffProfiles;
  let skipped := map after_skip (filter (λ t, is_skip t = true) tags) in
  let failed_scaffs :=
    failed_scaffs_of scaffolds_to_compare tags skipped in
  ScaffProfiles ←
    (if decide (0 < List.length failed_scaffs)%nat then
       cmds' ← iterate_commands names Sprofiles s2l failed_scaffs kwargs;
       retried ← retry_pass p cmds';
       Ok (ScaffProfiles ++ retried)
     else Ok ScaffProfiles);
  let kept := omap usable (ScaffProfiles : list ScaffProfile) in
  let dbs := map (λ k, k.1.1.1) kept in
  let mdbs := map (λ k, k.1.1.2) kept in
  let scaff2pair2mm2cov :=
    foldl (λ m k, <[k.2 := k.1.2]> m) ∅ kept in
  if decide (List.length dbs = 0%nat) then Raise ValueError
  else Ok (concat dbs, concat mdbs, scaff2pair2mm2cov).

End compare_scaffolds.

(** ** Genome aggregation: [calc_cov_ani] *)

Definition Qsum (l : list Q) : Q := foldl Qplus 0%Q l.
Definition Zsum (l : list Z) : Z := foldl Z.add 0 l.

Definition cmp_key (r : Cmp.row) : string * string * string :=
  (Cmp.scaffold r, Cmp.name1 r, Cmp.name2 r).

(** [Cdb[Cdb['mm'] <= g_mm].sort_values('mm').drop_duplicates(
       subset=['scaffold', 'name1', 'name2'], keep='last')] *)
Definition kept_rows (Cdb : list Cmp.row) (g_mm : Z) : list Cmp.row :=
  drop_duplicates_last cmp_key
    (sort_values Cmp.mm (filter (λ r, Cmp.mm r ≤ g_mm) Cdb)).

(** [a * c if a == a else 0] *)
Definition weighted (r : Cmp.row) : Q :=
  match Cmp.popANI r with
  | Some a => (a * inject_Z (Cmp.compared_bases_count r))%Q
  | None => 0%Q
  end.

Definition calc_cov_ani (Cdb : list Cmp.row) (BIN_LENGTH : Z)
    (kwargs : Kwargs) : result (option Q * Q) :=
  let g_mm := default 100 (kw_g_mm kwargs) in
  let db := kept_rows Cdb g_mm in
  let tcb := Zsum (map Cmp.compared_bases_count db) in
  let popANI :=
    if bool_decide (tcb = 0) then None
    else Some (Qsum (map weighted db) / inject_Z tcb)%Q in
  if bool_decide (BIN_LENGTH = 0) then Raise ZeroDivisionError
  else Ok (popANI, qdiv tcb BIN_LENGTH).

(** ** The entry point: [parse_validate], [greedy_main], [main] *)

(** The parsed command line: every input path with whether it exists and
    the profile stored there, and the options ([vars(args)]). The scaffold
    list of [kw_scaffolds] is the one [load_scaff_list] reads. *)
Record Args := {
  input : list (bool * SNVprofile);
  vargs : Kwargs
}.

(** What the run writes or prints, in order. *)
Inductive event :=
  | EPrint (msg : string)
  | ECall (callee : string)
  | EStore (name : string)
  | EToCsv (file : string).

Fixpoint rfoldl {A B} (f : A → B → result A) (a : A) (l : list B)
  : result A :=
  match l with
  | [] => Ok a
  | b :: l' => a' ← f a b; rfoldl f a' l'
  end.

(** The loop over [s2l.items()] with its assertion. *)
Definition add_lengths (scaffold2length : gmap string Z)
    (s2l : list (string * Z)) : result (gmap string Z) :=
  rfoldl (λ (m : gmap string Z) '((scaff, l) : string * Z),
    match m !! scaff with
    | Some l' => if bool_decide (l = l') then Ok m else Raise AssertionError
    | None => Ok (<[scaff := l]> m)
    end) scaffold2length s2l.

(** The values [parse_validate] returns that the comparison uses, and the
    module-level [name2SNVprofile] it fills. *)
Record Parsed := {
  p_names : list string;
  p_Sprofiles : list SNVprofile;
  p_scaffolds_to_compare : list string;
  p_s2l : gmap string Z;
  p_name2SNVprofile : gmap string (list SNV.row)
}.

Definition parse_validate (args : Args) : result Parsed :=
  let inputs := input args in
  if decide (List.length inputs ≤ 1)%nat then Raise AssertionError
  else
    let loaded := map snd (filter (λ i, i.1 = true) inputs) in
    let scaffolds := flat_map (λ IS, elements (dom (covT IS))) loaded in
    let names := map bam_loc loaded in
    let name2SNV :=
      foldl (λ (m : gmap string (list SNV.row)) IS,
               <[bam_loc IS := cumulative_snv_table IS]> m) ∅ loaded in
    scaffold2length ←
      rfoldl (λ m IS, add_lengths m (scaffold2length IS)) ∅ loaded;
    let shared :=
      filter (λ x, (2 ≤ List.length (filter (λ y, y = x) scaffolds))%nat)
             (remove_dups scaffolds) in
    let scaffolds_to_compare :=
      match kw_scaffolds (vargs args) with
      | Some listed => remove_dups (filter (λ x, x ∈ shared) listed)
      | None => shared
      end in
    if decide (List.length scaffolds_to_compare = 0%nat)
    then Raise AssertionError
    else Ok {| p_names := names; p_Sprofiles := loaded;
               p_scaffolds_to_compare := scaffolds_to_compare;
               p_s2l := scaffold2length;
               p_name2SNVprofile := name2SNV |}.

(** A row of the parsed table [Ddb] of the greedy path. *)
Record Ddb_row := {
  d_name1 : string;
  d_name2 : string;
  d_ANI : option Q;
  d_cov : Q;
  d_g_ani : option Q;
  d_g_cov : option Q;
  d_g_mm : option Z
}.

(** [row[col]] for the numeric columns of [Ddb]; the frame has the columns
    name1, name2, ANI, cov, g_ani, g_cov and g_mm. *)
Definition ddb_get (r : Ddb_row) (col : string) : result (option Q) :=
  if bool_decide (col = "ANI") then Ok (d_ANI r)
  else if bool_decide (col = "cov") then Ok (Some (d_cov r))
  else if bool_decide (col = "g_ani") then Ok (d_g_ani r)
  else if bool_decide (col = "g_cov") then Ok (d_g_cov r)
  else if bool_decide (col = "g_mm") then Ok (inject_Z <$> d_g_mm r)
  else Raise KeyError.

(** [x >= y] on floats, false when [x] is NaN. *)
Definition nan_ge (x : option Q) (y : Q) : bool :=
  match x with
  | Some v => Qle_bool y v
  | None => false
  end.

(** The clustering state of [greedy_main]. *)
Record ClusterState := {
  name2cluster : list (string * Z);
  cluster2rep : gmap Z string;
  clusters : Z
}.

Definition dict_get {A} (d : list (string * A)) (k : string) : result A :=
  match list_find (λ kv, kv.1 = k) (reverse d) with
  | Some (_, kv) => Ok kv.2
  | None => Raise KeyError
  end.

Section main.

Variable generate_snp_model : Q → Z → Z.
Variable future_raises : pool → string → bool.

Definition compare_Sprofiles
    (name2SNVprofile : option (gmap string (list SNV.row)))
    (IS1 cIS : SNVprofile) (names : list string)
    (scaffolds_to_compare : list string) (s2l : gmap string Z)
    (BIN_LENGTH : Z) (kwargs : Kwargs)
  : result (list Cmp.row * option Q * Q) :=
  r ← compare_scaffolds generate_snp_model name2SNVprofile future_raises
        names [IS1; cIS] scaffolds_to_compare s2l kwargs;
  ac ← calc_cov_ani r.1.1 BIN_LENGTH kwargs;
  Ok (r.1.1, ac.1, ac.2).

Definition compare_Sprofiles_wrapper
    (name2SNVprofile : option (gmap string (list SNV.row)))
    (IS1 : SNVprofile) (IS_list : list SNVprofile) (name1 : string)
    (names : list string) (scaffolds_to_compare : list string)
    (s2l : gmap string Z) (BIN_LENGTH : Z) (kwargs : Kwargs)
  : result (list Ddb_row * list Cmp.row) :=
  rs ← rmapM (λ '((cIS, name2) : SNVprofile * string),
          r ← compare_Sprofiles name2SNVprofile IS1 cIS [name1; name2]
                scaffolds_to_compare s2l BIN_LENGTH kwargs;
          Ok (r.1.1,
              {| d_name1 := name1; d_name2 := name2; d_ANI := r.1.2;
                 d_cov := r.2; d_g_ani := kw_g_ani kwargs;
                 d_g_cov := kw_g_cov kwargs; d_g_mm := kw_g_mm kwargs |}))
        (zip IS_list names);
  if decide (List.length rs = 0%nat) then Raise ValueError
  else Ok (map snd rs, concat (map fst rs)).

(** The scan [for i, row in Ddb.iterrows()] with its [break]: the name of
    the first representative that qualifies. *)
Fixpoint first_match (g_ani g_cov : Q) (Ddb : list Ddb_row)
  : result (option string) :=
  match Ddb with
  | [] => Ok None
  | row :: rest =>
      a ← ddb_get row "popANI";
      c ← ddb_get row "cov";
      if nan_ge a g_ani && nan_ge c g_cov then Ok (Some (d_name2 row))
      else first_match g_ani g_cov rest
  end.

(** One iteration of [for name, IS in zip(names[1:], Sprofiles[1:])]. *)
Definition greedy_step
    (name2SNVprofile : option (gmap string (list SNV.row)))
    (name2Sprofile : list (string * SNVprofile))
    (scaffolds_to_compare : list string) (s2l : gmap string Z)
    (BIN_LENGTH : Z) (kwargs : Kwargs) (st : ClusterState)
    (cur : string * SNVprofile) : result ClusterState :=
  let g_ani := default (99 # 100)%Q (kw_g_ani kwargs) in
  let g_cov := default (1 # 2)%Q (kw_g_cov kwargs) in
  let '(name, IS) := cur in
  compare_names ← rmapM (λ i : Z,
      match cluster2rep st !! i with
      | Some rep => Ok rep
      | None => Raise KeyError
      end) (seqZ 0 (clusters st));
  To_compare ← rmapM (dict_get name2Sprofile) compare_names;
  r ← compare_Sprofiles_wrapper name2SNVprofile IS To_compare name
        compare_names scaffolds_to_compare s2l BIN_LENGTH kwargs;
  found ← first_match g_ani g_cov r.1;
  match found with
  | Some rep =>
      c ← dict_get (name2cluster st) rep;
      Ok {| name2cluster := name2cluster st ++ [(name, c)];
            cluster2rep := cluster2rep st;
            clusters := clusters st |}
  | None =>
      Ok {| name2cluster := name2cluster st ++ [(name, clusters st)];
            cluster2rep := <[clusters st := name]> (cluster2rep st);
            clusters := clusters st + 1 |}
  end.

(** [greedy_main]: the greedy clustering, its stores and files. *)
Definition greedy_main
    (name2SNVprofile : option (gmap string (list SNV.row)))
    (names : list string) (Sprofiles : list SNVprofile)
    (scaffolds_to_compare : list string) (s2l : gmap string Z)
    (kwargs : Kwargs) : list event * result unit :=
  let run : result ClusterState :=
    match names with
    | [] => Raise IndexError
    | name0 :: _ =>
        if decide (NoDup names) then
          BIN_LENGTH ←
            match kw_scaffolds kwargs with
            | Some scaffolds =>
                ls ← rmapM (λ s : string,
                        match s2l !! s with
                        | Some l => Ok l
                        | None => Raise KeyError
                        end) scaffolds;
                Ok (Zsum ls)
            | None => Ok (Zsum (map snd (map_to_list s2l)))
            end;
          rfoldl (greedy_step name2SNVprofile (zip names Sprofiles)
                    scaffolds_to_compare s2l BIN_LENGTH kwargs)
            {| name2cluster := [(name0, 0)];
               cluster2rep := {[ 0 := name0 ]};
               clusters := 1 |}
            (zip (tail names) (tail Sprofiles))
        else Raise AssertionError
    end in
  match run with
  | Raise e => ([ECall "greedy_main"], Raise e)
  | Ok st =>
      if decide (List.length (zip (tail names) (tail Sprofiles)) = 0%nat)
      then ([ECall "greedy_main"], Raise ValueError)
      else
        ([ECall "greedy_main";
          EStore "greedy_clusters"; EStore "scaffold2length";
          EStore "comparisonsTable_greedy";
          EStore "parsed_comparisonsTable_greedy";
          EToCsv "greedyClusters.tsv";
          EToCsv "parsed_comparisonsTable_greedy.tsv"], Ok ())
  end.

(** [main] *)
Definition main (args : Args) : list event * result unit :=
  match parse_validate args with
  | Raise e => ([], Raise e)
  | Ok parsed =>
      let vargs := vargs args in
      let greedy := default false (kw_greedy_clustering vargs) in
      if greedy then
        ([EPrint "Greedy clustering not available at the moment; sorry"],
         Ok ())
      else
        match compare_scaffolds generate_snp_model
                (Some (p_name2SNVprofile parsed)) future_raises
                (p_names parsed) (p_Sprofiles parsed)
                (p_scaffolds_to_compare parsed) (p_s2l parsed) vargs with
        | Raise e => ([ECall "compare_scaffolds"], Raise e)
        | Ok _ =>
            ([ECall "compare_scaffolds";
              EStore "comparisonsTable"; EStore "scaffold2length";
              EToCsv "comparisonsTable.tsv"]
             ++ (if default false (kw_store_mismatch_locations vargs)
                 then [EStore "pairwise_SNP_locations"] else [])
             ++ (if default false (kw_store_coverage_overlap vargs)
                 then [EStore "scaff2pair2mm2cov"] else []),
             Ok ())
        end
  end.

End main.

(** ** Concrete inputs *)

Definition ex_covT1 : gmap Z (gmap Z Z) :=
  {[ 0 := {[ 1 := 5; 2 := 3 ]}; 1 := {[ 2 := 2; 3 := 7 ]} ]}.
Definition ex_covT2 : gmap Z (gmap Z Z) :=
  {[ 0 := {[ 1 := 6; 3 := 1 ]}; 2 := {[ 2 := 9 ]} ]}.

Definition ex_lM : CoverageOverlap.level := Eval vm_compute in
    default (CoverageOverlap.mk_level 0 0 ∅ ∅)
      (CoverageOverlap.levels ex_covT1 ex_covT2 5 !! 0%nat).
Definition ex_lN : CoverageOverlap.level := Eval vm_compute in
    default (CoverageOverlap.mk_level 0 0 ∅ ∅)
      (CoverageOverlap.levels ex_covT1 ex_covT2 5 !! 2%nat).

(** A NullModel whose threshold is 3 reads at every depth, and the
    documented minimum frequency. *)
Definition ex_model : Z → Z := λ depth, 3.
Definition ex_min_freq : Q := (5 # 100)%Q.

(** Sample B of the end-to-end scenario: at position 500 the reference is
    A, the reads are A:4 C:6, the consensus is C. *)
Definition ex_variant : SNV.row :=
  {| SNV.scaffold := "chr1"; SNV.position := 500; SNV.mm := 0;
     SNV.conBase := SNV.bC; SNV.refBase := SNV.bA; SNV.varBase := SNV.bA;
     SNV.baseCoverage := 10;
     SNV.count_A := 4; SNV.count_C := 6; SNV.count_T := 0; SNV.count_G := 0;
     SNV.allele_count := Some 2; SNV.morphia := None |}.

Definition ex_one_sided : SNV.joined :=
  {| SNV.j_position := 500; SNV.side_1 := None;
     SNV.side_2 := Some ex_variant |}.

(** The end-to-end scenario in small: scaffold "chr1" of length 5; sample A
    covers positions 1..4 at depth 10 and has no variant; sample B covers
    positions 2..5 at depth 10 and has a variant at position 3 (reads A:4
    C:6 on reference A). *)
Definition ex_depth10 (ps : list Z) : gmap Z Z :=
  list_to_map (map (λ p, (p, 10)) ps).

Definition ex_row_B (pos mm : Z) (con : SNV.base) (a c : Z) : SNV.row :=
  {| SNV.scaffold := "chr1"; SNV.position := pos; SNV.mm := mm;
     SNV.conBase := con; SNV.refBase := SNV.bA; SNV.varBase := SNV.bA;
     SNV.baseCoverage := a + c;
     SNV.count_A := a; SNV.count_C := c; SNV.count_T := 0; SNV.count_G := 0;
     SNV.allele_count := Some 2; SNV.morphia := None |}.

Definition ex_profile_A : SNVprofile :=
  {| bam_loc := "A.bam";
     covT := {[ "chr1" := {[ 0 := ex_depth10 [1; 2; 3; 4] ]} ]};
     cumulative_snv_table := [];
     scaffold2length := [("chr1", 5)] |}.

Definition ex_profile_B : SNVprofile :=
  {| bam_loc := "B.bam";
     covT := {[ "chr1" := {[ 0 := ex_depth10 [2; 3; 4; 5] ]} ]};
     cumulative_snv_table := [ex_row_B 3 0 SNV.bC 4 6];
     scaffold2length := [("chr1", 5)] |}.

Definition ex_generate_snp_model : Q → Z → Z := λ fdr, ex_model.

Definition ex_kwargs_min_freq (f : Q) : Kwargs :=
  {| kw_processes := None; kw_min_cov := None; kw_min_freq := Some f;
     kw_fdr := None; kw_store_coverage_overlap := None;
     kw_store_mismatch_locations := None;
     kw_include_self_comparisons := None; kw_greedy_clustering := None;
     kw_scaffolds := None; kw_g_ani := None; kw_g_cov := None;
     kw_g_mm := None |}.

(** The population-SNP counts of the rows a scaffold comparison returns. *)
Definition population_SNPs_of (r : result ScaffProfile) : list Z :=
  match r with
  | Ok (Profile Cdb _ _ _) => map Cmp.population_SNPs Cdb
  | _ => []
  end.

(** Sample B with two rows at position 3: at mismatch level 0 the reads are
    all reference (A:10); with up to 2 mismatches they are A:4 C:6. Its
    coverage has the levels 0 and 2. *)
Definition ex_table_two_levels : list SNV.row :=
  [ex_row_B 3 0 SNV.bA 10 0; ex_row_B 3 2 SNV.bC 4 6].

(** Two scaffolds. On "chr2" sample B has a variant row whose reference
    base is N, for which a merged row has no count column. *)
Definition ex_row_N : SNV.row :=
  {| SNV.scaffold := "chr2"; SNV.position := 1; SNV.mm := 0;
     SNV.conBase := SNV.bC; SNV.refBase := SNV.bN; SNV.varBase := SNV.bA;
     SNV.baseCoverage := 10;
     SNV.count_A := 4; SNV.count_C := 6; SNV.count_T := 0; SNV.count_G := 0;
     SNV.allele_count := Some 2; SNV.morphia := None |}.

Definition ex_profile_A2 : SNVprofile :=
  {| bam_loc := "A.bam";
     covT := {[ "chr1" := {[ 0 := ex_depth10 [1; 2; 3; 4] ]};
                "chr2" := {[ 0 := ex_depth10 [1; 2] ]} ]};
     cumulative_snv_table := [];
     scaffold2length := [("chr1", 5); ("chr2", 2)] |}.

Definition ex_profile_B2 : SNVprofile :=
  {| bam_loc := "B.bam";
     covT := {[ "chr1" := {[ 0 := ex_depth10 [2; 3; 4; 5] ]};
                "chr2" := {[ 0 := ex_depth10 [1; 2] ]} ]};
     cumulative_snv_table := [ex_row_B 3 0 SNV.bC 4 6; ex_row_N];
     scaffold2length := [("chr1", 5); ("chr2", 2)] |}.

Definition ex_s2l : gmap string Z := {[ "chr1" := 5; "chr2" := 2 ]}.

Definition ex_kwargs_processes (p : Z) : Kwargs :=
  {| kw_processes := Some p; kw_min_cov := None; kw_min_freq := None;
     kw_fdr := None; kw_store_coverage_overlap := None;
     kw_store_mismatch_locations := None;
     kw_include_self_comparisons := None; kw_greedy_clustering := None;
     kw_scaffolds := None; kw_g_ani := None; kw_g_cov := None;
     kw_g_mm := None |}.

Definition ex_no_fault : pool → string → bool := λ _ _, false.

(** The worker of "chr1" dies in the process pool. *)
Definition ex_chr1_dies : pool → string → bool := λ k s,
  match k with
  | ProcessPool => bool_decide (s = "chr1")
  | ThreadPool => false
  end.

Definition ex_cmd (scaff : string) (l : Z) : cmd :=
  {| cmd_scaffold := scaff; cmd_names := ["A.bam"; "B.bam"];
     cmd_sProfiles := [ex_profile_A2; ex_profile_B2];
     cmd_arguments := no_kwargs; cmd_mLen := l |}.

(** The scaffolds of the rows a run returns. *)
Definition scaffolds_of
    (r : result (list Cmp.row * list SNPloc
                 * gmap string (gmap string (list (Z * gset Z)))))
  : result (list string) :=
  match r with
  | Ok out => Ok (map Cmp.scaffold out.1.1)
  | Raise e => Raise e
  end.

(** A command line with the greedy option on. *)
Definition ex_args_greedy : Args :=
  {| input := [(true, ex_profile_A); (true, ex_profile_B)];
     vargs :=
       {| kw_processes := None; kw_min_cov := None; kw_min_freq := None;
          kw_fdr := None; kw_store_coverage_overlap := None;
          kw_store_mismatch_locations := None;
          kw_include_self_comparisons := None;
          kw_greedy_clustering := Some true;
          kw_scaffolds := None; kw_g_ani := None; kw_g_cov := None;
          kw_g_mm := None |} |}.

(** Two rows of one scaffold and pair, at the mismatch levels 2 and 5. *)
Definition ex_cmp_row (mm bases : Z) (ani : Q) : Cmp.row :=
  {| Cmp.mm := mm; Cmp.scaffold := "chr1";
     Cmp.name1 := "A.bam"; Cmp.name2 := "B.bam";
     Cmp.coverage_overlap := 1%Q;
     Cmp.compared_bases_count := bases;
     Cmp.percent_genome_compared := qdiv bases 1000;
     Cmp.length := 1000;
     Cmp.consensus_SNPs := 0; Cmp.population_SNPs := 0;
     Cmp.popANI := Some ani; Cmp.conANI := Some ani |}.

Definition ex_Cdb : list Cmp.row :=
  [ex_cmp_row 5 600 (9 # 10)%Q; ex_cmp_row 2 500 1%Q].

(** The comparison table of "chr1" for the samples A and B under the
    default configuration. *)
Definition ex_Cdb_chr1 : list Cmp.row :=
  [{| Cmp.mm := 0; Cmp.scaffold := "chr1";
      Cmp.name1 := "A.bam"; Cmp.name2 := "B.bam";
      Cmp.coverage_overlap := (3 # 5)%Q;
      Cmp.compared_bases_count := 3;
      Cmp.percent_genome_compared := (3 # 5)%Q;
      Cmp.length := 5;
      Cmp.consensus_SNPs := 1; Cmp.population_SNPs := 1;
      Cmp.popANI := Some (2 # 3)%Q; Cmp.conANI := Some (2 # 3)%Q |}].

(** ** Further definitions for the properties of the whole module *)

(** The row with the two samples exchanged. *)
Definition swap_sides (r : SNV.joined) : SNV.joined :=
  {| SNV.j_position := SNV.j_position r;
     SNV.side_1 := SNV.side_2 r;
     SNV.side_2 := SNV.side_1 r |}.

(** The second level of the comparison of the first example sample with
    itself. *)
Definition ex_self_level : CoverageOverlap.level := Eval vm_compute in
    default (CoverageOverlap.mk_level 0 0 ∅ ∅)
      (CoverageOverlap.levels ex_covT1 ex_covT1 5 !! 1%nat).

(** Sample A with a variant of its own at position 500: reads A:2 G:8 on
    reference A, consensus G. *)
Definition ex_variant_G : SNV.row :=
  {| SNV.scaffold := "chr1"; SNV.position := 500; SNV.mm := 0;
     SNV.conBase := SNV.bG; SNV.refBase := SNV.bA; SNV.varBase := SNV.bA;
     SNV.baseCoverage := 10;
     SNV.count_A := 2; SNV.count_C := 0; SNV.count_T := 0; SNV.count_G := 8;
     SNV.allele_count := Some 2; SNV.morphia := None |}.

Definition ex_two_sided : SNV.joined :=
  {| SNV.j_position := 500; SNV.side_1 := Some ex_variant_G;
     SNV.side_2 := Some ex_variant |}.

(** What holds of every row of the table of a scaffold of length [mLen]. *)
Definition row_facts (scaffold : string) (mLen : Z) (r : Cmp.row) : Prop :=
  ani_row_spec r ∧
  Cmp.scaffold r = scaffold ∧ Cmp.length r = mLen ∧ mLen ≠ 0 ∧
  0 ≤ Cmp.population_SNPs r ≤ Cmp.consensus_SNPs r ∧
  Cmp.consensus_SNPs r ≤ Cmp.compared_bases_count r ∧
  Cmp.percent_genome_compared r
    = (inject_Z (Cmp.compared_bases_count r) / inject_Z mLen)%Q ∧
  (0 <= Cmp.coverage_overlap r)%Q ∧ (Cmp.coverage_overlap r <= 1)%Q ∧
  ∀ c p, Cmp.conANI r = Some c → Cmp.popANI r = Some p → (c <= p)%Q.


(** Sample B with the two-level table. *)
Definition ex_profile_two_levels : SNVprofile :=
  {| bam_loc := "B.bam";
     covT := {[ "chr1" := {[ 0 := ex_depth10 [2; 3; 4; 5] ]} ]};
     cumulative_snv_table := ex_table_two_levels;
     scaffold2length := [("chr1", 5)] |}.

(** Every unordered pair of a list once, in the order of the list: an
    element with itself (when [include_self] is set), then with each later
    element. *)
Fixpoint all_pairs {A} (include_self : bool) (l : list A) : list (A * A) :=
  match l with
  | [] => []
  | a :: l' =>
      (if include_self then [(a, a)] else [])
      ++ map (λ b, (a, b)) l' ++ all_pairs include_self l'
  end.

(** The list with its 1-based indices shifted to start at [k]. *)
Definition enumerate_from {A} (k : Z) (l : list A) : list (Z * A) :=
  imap (λ i a, (Z.of_nat i + k, a)) l.

(** The test of the double loop of [compare_scaffold] on two indexed
    samples, and the loop over lists indexed from [k]. *)
Definition pair_cond {A} (include_self_comparisons : bool)
    (ia jb : Z * A) : option (A * A) :=
  if bool_decide (jb.1 < ia.1) then None
  else if negb include_self_comparisons && bool_decide (ia.1 = jb.1)
       then None
       else Some (ia.2, jb.2).

Definition pairs_from {A} (k : Z) (include_self_comparisons : bool)
    (samples : list A) : list (A * A) :=
  flat_map (λ ia,
      omap (pair_cond include_self_comparisons ia) (enumerate_from k samples))
    (enumerate_from k samples).

(** [l[a:b]]: Python's slice of a list, a negative bound counting from the
    end and every bound clipped to the list. *)
Definition py_slice {A} (l : list A) (a b : Z) : list A :=
  let n := Z.of_nat (List.length l) in
  let clip (i : Z) :=
    if bool_decide (i < 0) then Z.max (n + i) 0 else Z.min i n in
  take (Z.to_nat (clip b - clip a)) (drop (Z.to_nat (clip a)) l).

(** [iterate_scaffold_chunks]: the chunks the generator yields, in
    order; [//] is the floor division. *)
Definition iterate_scaffold_chunks {A} (scaffolds_to_compare : list A)
    (chunkSize : Z) : result (list (list A)) :=
  if bool_decide (chunkSize = 0) then Raise ZeroDivisionError
  else
    let numberChunks :=
      Z.of_nat (List.length scaffolds_to_compare) `div` chunkSize + 1 in
    Ok (map (λ i, py_slice scaffolds_to_compare
                    (i * chunkSize) ((i + 1) * chunkSize))
          (seqZ 0 numberChunks)).



(** * Properties *)

Import CoverageOverlap.

(** ** Coverage overlap *)

Lemma covered_spec min_cov (cov : gmap Z Z) p :
  p ∈ covered min_cov cov ↔ ∃ d, cov !! p = Some d ∧ min_cov ≤ d.
Proof.
  unfold covered. rewrite elem_of_dom. unfold is_Some.
  split.
  - intros [d Hd]. apply map_lookup_filter_Some in Hd as [? ?]. eauto.
  - intros (d & ? & ?). exists d. apply map_lookup_filter_Some. eauto.
Qed.

Lemma series_add_lookup (a b : gmap Z Z) p :
  series_add a b !! p =
    match a !! p, b !! p with
    | Some x, Some y => Some (x + y)
    | Some x, None => Some x
    | None, o => o
    end.
Proof.
  unfold series_add. rewrite lookup_union_with.
  destruct (a !! p), (b !! p); reflexivity.
Qed.

Lemma cum_cov_lookup covT ms cov p :
  cum_cov covT ms cov !! p = add_contributions (cov !! p) (contributions covT ms p).
Proof.
  revert cov. induction ms as [|m ms IH]; intros cov; simpl.
  - destruct (cov !! p); simpl; f_equal; lia.
  - unfold cum_cov in *. simpl. rewrite IH. unfold step_cov, contributions. simpl.
    destruct (covT !! m) as [s|] eqn:Hm; simpl; [|reflexivity].
    rewrite series_add_lookup.
    destruct (cov !! p) as [x|], (s !! p) as [y|]; simpl; try reflexivity;
      try (f_equal; lia).
Qed.

Lemma cum_cov_empty_lookup covT ms p :
  cum_cov covT ms ∅ !! p = cumulative_depth covT ms p.
Proof.
  rewrite cum_cov_lookup, lookup_empty. unfold cumulative_depth.
  destruct (contributions covT ms p); reflexivity.
Qed.

Lemma mm_loop_elem covT1 covT2 min_cov mms cov1 cov2 l :
  l ∈ mm_loop covT1 covT2 min_cov mms cov1 cov2 →
  ∃ pre post, mms = pre ++ lv_mm l :: post ∧
    l = mk_level min_cov (lv_mm l)
          (cum_cov covT1 (pre ++ [lv_mm l]) cov1)
          (cum_cov covT2 (pre ++ [lv_mm l]) cov2).
Proof.
  revert cov1 cov2. induction mms as [|mm mms IH]; intros cov1 cov2; simpl.
  - intros H. inversion H.
  - rewrite elem_of_cons. intros [->|H].
    + exists [], mms. simpl. split; reflexivity.
    + apply IH in H as (pre & post & -> & Hl).
      exists (mm :: pre), post. split; [reflexivity|]. exact Hl.
Qed.

Lemma sorted_nodup_strict (k : list Z) :
  StronglySorted Z.le k → NoDup k → StronglySorted Z.lt k.
Proof.
  induction 1 as [|x k Hk IH Hall]; intros Hnd; [constructor|].
  apply NoDup_cons in Hnd as [Hx Hnd].
  constructor; [auto|].
  rewrite Forall_forall in *. intros y Hy.
  specialize (Hall y Hy). assert (x ≠ y) by (intros ->; auto). lia.
Qed.

Lemma mms_of_sorted covT1 covT2 : StronglySorted Z.lt (mms_of covT1 covT2).
Proof.
  unfold mms_of. apply sorted_nodup_strict.
  - apply Sorted_StronglySorted; [intros ???; lia|].
    apply Sorted_merge_sort. intros x y. lia.
  - rewrite merge_sort_Permutation. apply NoDup_elements.
Qed.

Lemma sorted_filter_le pre mm post :
  StronglySorted Z.lt (pre ++ mm :: post) →
  filter (λ m, m ≤ mm) (pre ++ mm :: post) = pre ++ [mm].
Proof.
  intros Hs. apply StronglySorted_app in Hs as (Hpp & Hpre & Hpost).
  apply StronglySorted_cons in Hpost as [Hall _].
  rewrite filter_app, filter_cons_True by lia.
  f_equal.
  - induction pre as [|a pre IH]; [reflexivity|].
    rewrite filter_cons_True.
    + f_equal. apply IH.
      * intros x1 x2 H1 H2. apply Hpp; [right|]; done.
      * by apply StronglySorted_cons in Hpre as [_ ?].
    + assert (a < mm); [|lia]. apply Hpp; [left|left].
  - f_equal. clear -Hall. induction post as [|a post IH]; [reflexivity|].
    apply Forall_cons in Hall as [Ha Hall].
    rewrite filter_cons_False by lia. auto.
Qed.


Lemma qdiv_unit_interval a b :
  0 ≤ a ≤ b → 0 < b → (0 <= qdiv a b)%Q ∧ (qdiv a b <= 1)%Q.
Proof.
  intros Hab Hb. unfold qdiv.
  destruct b as [|pb|pb]; try lia.
  unfold Qdiv, Qinv, Qmult, Qle, inject_Z. simpl. split; lia.
Qed.

(** C5. For every mismatch level [mm] that [_calc_mm2overlap] evaluates, with
    [T1] and [T2] the sets of positions whose cumulative depth over the
    evaluated levels up to [mm] is at least [min_cov] in sample 1 and in
    sample 2: the overlap stored for [mm] is [T1 ∩ T2], the coverage stored
    for [mm] is |T1 ∩ T2| / |T1 ∪ T2| when the union is not empty and 0
    when it is, and it lies in [0,1]. *)
Theorem coverage_overlap_fraction covT1 covT2 min_cov mm (c : Q) :
  (mm, c) ∈ (_calc_mm2overlap covT1 covT2 min_cov).2 →
  ∃ T1 T2 : gset Z,
    let ms := filter (λ m, m ≤ mm) (mms_of covT1 covT2) in
    (∀ p, p ∈ T1 ↔ ∃ d, cumulative_depth covT1 ms p = Some d ∧ min_cov ≤ d) ∧
    (∀ p, p ∈ T2 ↔ ∃ d, cumulative_depth covT2 ms p = Some d ∧ min_cov ≤ d) ∧
    (mm, T1 ∩ T2) ∈ (_calc_mm2overlap covT1 covT2 min_cov).1 ∧
    (T1 ∪ T2 ≠ ∅ →
       c == inject_Z (Z.of_nat (size (T1 ∩ T2)))
            / inject_Z (Z.of_nat (size (T1 ∪ T2))))%Q ∧
    (T1 ∪ T2 = ∅ → c == 0)%Q ∧
    (0 <= c)%Q ∧ (c <= 1)%Q.
Proof.
  unfold _calc_mm2overlap. simpl.
  rewrite list_elem_of_fmap. intros (l & Heq & Hl). inversion Heq; subst mm c.
  pose proof Hl as Hl'.
  apply mm_loop_elem in Hl' as (pre & post & Hmms & Hlv).
  pose proof (mms_of_sorted covT1 covT2) as Hs. rewrite Hmms in Hs.
  rewrite Hmms, (sorted_filter_le _ _ _ Hs).
  set (c1 := cum_cov covT1 (pre ++ [lv_mm l]) ∅) in *.
  set (c2 := cum_cov covT2 (pre ++ [lv_mm l]) ∅) in *.
  exists (covered min_cov c1), (covered min_cov c2).
  split; [|split; [|split]].
  - intros p. rewrite covered_spec. unfold c1. by rewrite cum_cov_empty_lookup.
  - intros p. rewrite covered_spec. unfold c2. by rewrite cum_cov_empty_lookup.
  - rewrite list_elem_of_fmap. exists l. split; [|exact Hl].
    f_equal. rewrite Hlv. reflexivity.
  - rewrite Hlv. simpl. unfold overlap_cov.
    set (both := covered min_cov c1 ∩ covered min_cov c2).
    set (either := covered min_cov c1 ∪ covered min_cov c2).
    assert (Hsub : (size both ≤ size either)%nat).
    { apply subseteq_size. unfold both, either.
      intros p Hp. apply elem_of_intersection in Hp as [Hp _].
      apply elem_of_union. by left. }
    destruct (decide (0 < size either)%nat) as [Hpos|Hz].
    + split; [reflexivity|]. split.
      * intros He. rewrite He, size_empty in Hpos. lia.
      * apply qdiv_unit_interval; lia.
    + split.
      * intros Hne. destruct Hne. apply leibniz_equiv, size_empty_iff. lia.
      * split; [reflexivity|]. split; [apply Qle_refl|]. by unfold Qle.
Qed.

Lemma coverage_overlap_fraction_witness :
  ∃ T1 T2 : gset Z,
    let ms := filter (λ m, m ≤ 1) (mms_of ex_covT1 ex_covT2) in
    (∀ p, p ∈ T1 ↔ ∃ d, cumulative_depth ex_covT1 ms p = Some d ∧ 5 ≤ d) ∧
    (∀ p, p ∈ T2 ↔ ∃ d, cumulative_depth ex_covT2 ms p = Some d ∧ 5 ≤ d) ∧
    (1, T1 ∩ T2) ∈ (_calc_mm2overlap ex_covT1 ex_covT2 5).1 ∧
    (T1 ∪ T2 ≠ ∅ →
       (1 # 3) == inject_Z (Z.of_nat (size (T1 ∩ T2)))
            / inject_Z (Z.of_nat (size (T1 ∪ T2))))%Q ∧
    (T1 ∪ T2 = ∅ → (1 # 3) == 0)%Q ∧
    (0 <= 1 # 3)%Q ∧ (1 # 3 <= 1)%Q.
Proof.
  apply (coverage_overlap_fraction ex_covT1 ex_covT2 5 1 (1 # 3)).
  vm_compute. right. left.
Defined.

Lemma covered_step_mono covT min_cov mm cov :
  depths_nonneg covT →
  covered min_cov cov ⊆ covered min_cov (step_cov covT mm cov).
Proof.
  intros Hnn p. rewrite !covered_spec. intros (d & Hd & Hle).
  unfold step_cov. destruct (covT !! mm) as [s|] eqn:Hs; [|eauto].
  rewrite series_add_lookup, Hd.
  destruct (s !! p) as [y|] eqn:Hy; [|eauto].
  exists (d + y). split; [reflexivity|].
  pose proof (Hnn _ _ Hs _ _ Hy). simpl in *. lia.
Qed.

Lemma mm_loop_lv_mm covT1 covT2 min_cov mms cov1 cov2 l :
  l ∈ mm_loop covT1 covT2 min_cov mms cov1 cov2 → lv_mm l ∈ mms.
Proof.
  intros H. apply mm_loop_elem in H as (pre & post & -> & _).
  apply elem_of_app. right. left.
Qed.

Lemma mm_loop_above covT1 covT2 min_cov mms cov1 cov2 l :
  depths_nonneg covT1 → depths_nonneg covT2 →
  l ∈ mm_loop covT1 covT2 min_cov mms cov1 cov2 →
  covered min_cov cov1 ⊆ lv_T1 l ∧ covered min_cov cov2 ⊆ lv_T2 l.
Proof.
  intros H1 H2. revert cov1 cov2.
  induction mms as [|mm mms IH]; intros cov1 cov2; simpl.
  - intros H. inversion H.
  - rewrite elem_of_cons. intros [->|H]; simpl.
    + split; by apply covered_step_mono.
    + apply IH in H as [Ha Hb]. split.
      * etrans; [|exact Ha]. by apply covered_step_mono.
      * etrans; [|exact Hb]. by apply covered_step_mono.
Qed.

Lemma mm_loop_monotone covT1 covT2 min_cov mms cov1 cov2 lM lN :
  depths_nonneg covT1 → depths_nonneg covT2 →
  StronglySorted Z.lt mms →
  lM ∈ mm_loop covT1 covT2 min_cov mms cov1 cov2 →
  lN ∈ mm_loop covT1 covT2 min_cov mms cov1 cov2 →
  lv_mm lM ≤ lv_mm lN →
  lv_T1 lM ⊆ lv_T1 lN ∧ lv_T2 lM ⊆ lv_T2 lN.
Proof.
  intros H1 H2 Hs. revert cov1 cov2.
  induction Hs as [|mm mms Hs IH Hall]; intros cov1 cov2; simpl.
  - intros H. inversion H.
  - rewrite !elem_of_cons. intros [->|HM] [->|HN] Hle; simpl in *.
    + split; intros p Hp; exact Hp.
    + apply (mm_loop_above _ _ _ _ _ _ _ H1 H2 HN).
    + apply mm_loop_lv_mm in HM. rewrite Forall_forall in Hall.
      specialize (Hall _ HM). lia.
    + eapply IH; eauto.
Qed.

Lemma levels_both covT1 covT2 min_cov l :
  l ∈ levels covT1 covT2 min_cov →
  coveredInBoth l = lv_T1 l ∩ lv_T2 l ∧ coveredInEither l = lv_T1 l ∪ lv_T2 l.
Proof.
  intros H. apply mm_loop_elem in H as (pre & post & _ & ->). done.
Qed.

(** C7. With depth contributions that are not negative and a fixed
    [min_cov], the covered-position sets of both samples and the overlap
    set computed at an evaluated level N contain those computed at any
    evaluated level M ≤ N. *)
Theorem coverage_monotone covT1 covT2 min_cov lM lN :
  depths_nonneg covT1 → depths_nonneg covT2 →
  lM ∈ levels covT1 covT2 min_cov →
  lN ∈ levels covT1 covT2 min_cov →
  lv_mm lM ≤ lv_mm lN →
  lv_T1 lM ⊆ lv_T1 lN ∧ lv_T2 lM ⊆ lv_T2 lN ∧
  coveredInBoth lM ⊆ coveredInBoth lN.
Proof.
  intros H1 H2 HM HN Hle.
  destruct (mm_loop_monotone _ _ _ _ _ _ _ _ H1 H2
              (mms_of_sorted covT1 covT2) HM HN Hle) as [Ha Hb].
  split; [done|]. split; [done|].
  destruct (levels_both _ _ _ _ HM) as [-> _].
  destruct (levels_both _ _ _ _ HN) as [-> _].
  intros p Hp. apply elem_of_intersection in Hp as [? ?].
  apply elem_of_intersection. split; auto.
Qed.

Lemma coverage_monotone_witness :
  lv_T1 ex_lM ⊆ lv_T1 ex_lN ∧ lv_T2 ex_lM ⊆ lv_T2 ex_lN ∧
  coveredInBoth ex_lM ⊆ coveredInBoth ex_lN.
Proof.
  apply (coverage_monotone ex_covT1 ex_covT2 5 ex_lM ex_lN).
  - apply (bool_decide_unpack _). vm_compute. exact I.
  - apply (bool_decide_unpack _). vm_compute. exact I.
  - vm_compute. left.
  - vm_compute. right. right. left.
  - vm_compute. discriminate.
Defined.

(** ** The present test and the population-SNP classifier *)

Import SNV.

Lemma is_present_eq counts total model min_freq :
  total ≠ 0 →
  is_present counts total model min_freq = Ok (present counts total model min_freq).
Proof.
  intros Ht. unfold is_present, present.
  case_bool_decide; [|reflexivity].
  rewrite bool_decide_eq_false_2 by done. reflexivity.
Qed.

(** C1, as the code has it. When exactly one sample has no variant row at
    the position, the classifier looks at the sample that does have one:
    it returns 'not a SNP' iff that sample's own count of its own
    reference base passes the present test at that sample's own depth
    (for a reference base among A, C, T, G and a positive depth), and
    'SNP' otherwise. *)
Theorem call_pop_snps_one_sided (r : joined) (rv : row) (count : Z)
    (model : Z → Z) (min_freq : Q) :
  (side_1 r = None ∧ side_2 r = Some rv) ∨
  (side_1 r = Some rv ∧ side_2 r = None) →
  count_of (refBase rv) rv = Ok count →
  0 < baseCoverage rv →
  call_pop_snps r model min_freq
  = Ok (negb (present count (baseCoverage rv) model min_freq)).
Proof.
  intros Hside Hcount Hdepth. unfold call_pop_snps.
  destruct Hside as [[-> ->]|[-> ->]];
    unfold base_present; rewrite Hcount; simpl;
    rewrite is_present_eq by lia; reflexivity.
Qed.

Lemma call_pop_snps_one_sided_witness :
  call_pop_snps ex_one_sided ex_model ex_min_freq
  = Ok (negb (present 4 (baseCoverage ex_variant) ex_model ex_min_freq)).
Proof.
  apply (call_pop_snps_one_sided ex_one_sided ex_variant 4 ex_model ex_min_freq).
  - left. split; reflexivity.
  - reflexivity.
  - reflexivity.
Defined.

(** C1 as stated fails. Sample 1 has no variant at position 500, sample 2
    has consensus C on reference A with reads A:4 C:6. The sentinel
    sample's count of C is 0, which is not present, so the stated rule
    calls a SNP; the code finds the reference A present in sample 2 (4 of
    10 reads) and returns 'not a SNP'. *)
Lemma one_sided_rule_not_sentinel_count :
  call_pop_snps ex_one_sided ex_model ex_min_freq = Ok false ∧
  spec_one_sided_pop_snp (sentinel_row "chr1" 500 bA 10) ex_variant
    ex_model ex_min_freq = Ok true.
Proof. split; reflexivity. Qed.

(** C9. At a total depth of zero, a count within the depth and a
    NullModel whose threshold is positive, the present test returns
    'not present' and raises nothing: the count is below the threshold, so
    the division by the depth is never evaluated. *)
Theorem is_present_zero_depth (counts total : Z) (model : Z → Z) (min_freq : Q) :
  total = 0 → 0 ≤ counts ≤ total → 0 < model total →
  is_present counts total model min_freq = Ok false.
Proof.
  intros -> Hc Hm. unfold is_present.
  rewrite bool_decide_eq_false_2 by lia. reflexivity.
Qed.

Lemma is_present_zero_depth_witness :
  is_present 0 0 ex_model ex_min_freq = Ok false.
Proof.
  apply (is_present_zero_depth 0 0 ex_model ex_min_freq); unfold ex_model; lia.
Defined.

(** The test has no guard of its own for a zero depth: a count that reaches
    the threshold at depth 0 makes the division raise. *)
Lemma is_present_unguarded_division (counts : Z) (model : Z → Z)
    (min_freq : Q) :
  model 0 ≤ counts →
  is_present counts 0 model min_freq = Raise ZeroDivisionError.
Proof.
  intros Hc. unfold is_present.
  rewrite bool_decide_eq_true_2 by done. reflexivity.
Qed.

(** ** Genome aggregation *)

Section drop_duplicates.
Context {A K : Type} `{EqDecision K} (key : A → K).

Lemma drop_duplicates_last_elem (l : list A) r :
  r ∈ drop_duplicates_last key l → r ∈ l.
Proof.
  induction l as [|a l IH]; simpl; [done|].
  case_decide.
  - intros H'. right. auto.
  - rewrite elem_of_cons. intros [->|H']; [left|right; auto].
Qed.

Lemma drop_duplicates_last_NoDup (l : list A) :
  NoDup (map key (drop_duplicates_last key l)).
Proof.
  induction l as [|a l IH]; simpl; [constructor|].
  case_decide as Hin; [done|].
  simpl. constructor; [|done].
  intros Ha. apply Hin.
  apply list_elem_of_fmap in Ha as (r & -> & Hr).
  apply list_elem_of_fmap. exists r. split; [done|].
  by apply drop_duplicates_last_elem.
Qed.

Lemma drop_duplicates_last_covers (l : list A) r :
  r ∈ l → ∃ k, k ∈ drop_duplicates_last key l ∧ key k = key r.
Proof.
  revert r. induction l as [|a l IH]; intros r; simpl; [inversion 1|].
  rewrite elem_of_cons. intros [->|Hr].
  - case_decide as Hin.
    + apply list_elem_of_fmap in Hin as (r' & Hk & Hr').
      destruct (IH _ Hr') as (k & ? & ?). exists k. split; [done|congruence].
    + exists a. split; [left|done].
  - destruct (IH _ Hr) as (k & ? & ?). exists k.
    split; [|done]. case_decide; [done|by right].
Qed.

Lemma drop_duplicates_last_max (rank : A → Z) (l : list A) r r' :
  StronglySorted (key_le rank) l →
  r ∈ drop_duplicates_last key l → r' ∈ l → key r' = key r →
  rank r' ≤ rank r.
Proof.
  intros Hs. revert r r'.
  induction Hs as [|a l Hs IH Hall]; intros r r'; simpl; [inversion 1|].
  rewrite Forall_forall in Hall.
  case_decide as Hin.
  - intros Hr. rewrite elem_of_cons. intros [->|Hr'] Hk; [|by apply IH].
    apply Hall. by apply drop_duplicates_last_elem.
  - rewrite !elem_of_cons. intros [->|Hr] [->|Hr'] Hk.
    + lia.
    + destruct Hin. rewrite <- Hk. apply list_elem_of_fmap. eauto.
    + destruct Hin. rewrite Hk. apply list_elem_of_fmap.
      exists r. split; [done|]. by apply drop_duplicates_last_elem.
    + by apply IH.
Qed.
End drop_duplicates.

Lemma sort_values_sorted {A} (key : A → Z) (l : list A) :
  StronglySorted (key_le key) (sort_values key l).
Proof.
  apply Sorted_StronglySorted.
  - intros x y z. unfold key_le. lia.
  - apply Sorted_merge_sort. intros x y. unfold key_le. lia.
Qed.

Lemma sort_values_elem {A} (key : A → Z) (l : list A) r :
  r ∈ sort_values key l ↔ r ∈ l.
Proof. unfold sort_values. by rewrite merge_sort_Permutation. Qed.

Lemma kept_rows_spec (Cdb : list Cmp.row) (g_mm : Z) :
  (∀ r, r ∈ kept_rows Cdb g_mm →
        r ∈ Cdb ∧ Cmp.mm r ≤ g_mm ∧
        ∀ r', r' ∈ Cdb → cmp_key r' = cmp_key r → Cmp.mm r' ≤ g_mm →
              Cmp.mm r' ≤ Cmp.mm r) ∧
  NoDup (map cmp_key (kept_rows Cdb g_mm)) ∧
  (∀ r, r ∈ Cdb → Cmp.mm r ≤ g_mm →
        ∃ k, k ∈ kept_rows Cdb g_mm ∧ cmp_key k = cmp_key r).
Proof.
  unfold kept_rows. split; [|split].
  - intros r Hr. pose proof (drop_duplicates_last_elem _ _ _ Hr) as Hin.
    apply sort_values_elem, list_elem_of_filter in Hin as [Hle Hin].
    split; [done|]. split; [done|].
    intros r' Hr' Hk Hle'.
    eapply (drop_duplicates_last_max cmp_key Cmp.mm); eauto using sort_values_sorted.
    apply sort_values_elem, list_elem_of_filter. done.
  - apply drop_duplicates_last_NoDup.
  - intros r Hr Hle. apply drop_duplicates_last_covers.
    apply sort_values_elem, list_elem_of_filter. done.
Qed.

(** C6. For a genome of non-zero length, [calc_cov_ani] keeps exactly one
    row per scaffold and sample pair that has a row at or below the
    ceiling (default 100), a row of the table with the highest mismatch
    level not exceeding the ceiling; it returns as coverage the total
    compared bases of the kept rows over the genome length, and as popANI
    NaN when that total is zero and otherwise the sum of popANI times
    compared bases over the kept rows, a NaN popANI counting 0, divided by
    the total. *)
Theorem calc_cov_ani_spec (Cdb : list Cmp.row) (BIN_LENGTH : Z) (kwargs : Kwargs) :
  BIN_LENGTH ≠ 0 →
  let ceiling := default 100 (kw_g_mm kwargs) in
  ∃ (kept : list Cmp.row) (popANI : option Q),
    let tcb := Zsum (map Cmp.compared_bases_count kept) in
    calc_cov_ani Cdb BIN_LENGTH kwargs
      = Ok (popANI, (inject_Z tcb / inject_Z BIN_LENGTH)%Q) ∧
    (∀ r, r ∈ kept →
        r ∈ Cdb ∧ Cmp.mm r ≤ ceiling ∧
        ∀ r', r' ∈ Cdb → cmp_key r' = cmp_key r → Cmp.mm r' ≤ ceiling →
              Cmp.mm r' ≤ Cmp.mm r) ∧
    NoDup (map cmp_key kept) ∧
    (∀ r, r ∈ Cdb → Cmp.mm r ≤ ceiling →
        ∃ k, k ∈ kept ∧ cmp_key k = cmp_key r) ∧
    (tcb = 0 → popANI = None) ∧
    (tcb ≠ 0 →
       popANI = Some (Qsum (map (λ r,
                   match Cmp.popANI r with
                   | Some a => a * inject_Z (Cmp.compared_bases_count r)
                   | None => 0
                   end) kept) / inject_Z tcb)%Q).
Proof.
  intros Hlen ceiling.
  exists (kept_rows Cdb ceiling).
  eexists. simpl.
  destruct (kept_rows_spec Cdb ceiling) as (H1 & H2 & H3).
  split; [|split; [exact H1|split; [exact H2|split; [exact H3|]]]].
  - unfold calc_cov_ani. rewrite bool_decide_eq_false_2 by done. reflexivity.
  - fold ceiling. split; intros Ht.
    + by rewrite bool_decide_eq_true_2.
    + by rewrite bool_decide_eq_false_2.
Qed.

(** ** The comparison table *)

Lemma rmapM_Ok {A B} (f : A → result B) (l : list A) (bs : list B) :
  rmapM f l = Ok bs → Forall2 (λ a b, f a = Ok b) l bs.
Proof.
  revert bs. induction l as [|a l IH]; intros bs; simpl.
  - intros [= <-]. constructor.
  - destruct (f a) as [b|e] eqn:Hfa; simpl; [|discriminate].
    destruct (rmapM f l) as [bs'|e'] eqn:Hl; simpl; [|discriminate].
    intros [= <-]. constructor; auto.
Qed.

Lemma s_all_position (t : list row) (covs : gset Z) r :
  r ∈ s_all t covs → position r ∈ covs.
Proof.
  unfold s_all. case_decide; [|inversion 1].
  intros Hr. apply drop_duplicates_last_elem in Hr.
  by apply list_elem_of_filter in Hr as [? _].
Qed.

Lemma merge_outer_positions (s1 s2 : list row) :
  NoDup (map j_position (merge_outer s1 s2)) ∧
  ∀ p, p ∈ map j_position (merge_outer s1 s2) →
       p ∈ map position s1 ∨ p ∈ map position s2.
Proof.
  unfold merge_outer.
  set (keys := merge_sort Z.le _).
  assert (Hmap : map j_position
            (map (λ p, {| j_position := p; side_1 := at_position p s1;
                          side_2 := at_position p s2 |}) keys) = keys).
  { rewrite map_map. simpl. apply map_id. }
  rewrite Hmap. unfold keys. split.
  - rewrite merge_sort_Permutation. apply NoDup_elements.
  - intros p. rewrite merge_sort_Permutation, elem_of_elements, elem_of_union.
    rewrite !elem_of_list_to_set. done.
Qed.

Lemma snp_level_rows t1 t2 model min_freq mm (covs : gset Z) rows :
  snp_level t1 t2 model min_freq mm covs = Ok rows →
  NoDup (map pos_of rows) ∧
  Forall (λ m, m_mm m = mm ∧ pos_of m ∈ covs) rows.
Proof.
  unfold snp_level. case_decide as Hempty.
  - intros [= <-]. split; constructor.
  - intros Hrows. apply rmapM_Ok in Hrows.
    destruct (merge_outer_positions (s_all t1 covs) (s_all t2 covs))
      as [Hnd Hin].
    assert (Hpos : ∀ p, p ∈ map j_position
                      (merge_outer (s_all t1 covs) (s_all t2 covs)) →
                      p ∈ covs).
    { intros p Hp. destruct (Hin p Hp) as [Hp'|Hp'];
        apply list_elem_of_fmap in Hp' as (r & -> & Hr);
        by eapply s_all_position. }
    clear Hin Hempty.
    induction Hrows as [|j m js ms Hm Hrest IH]; [split; constructor|].
    simpl in Hnd. apply NoDup_cons in Hnd as [Hj Hnd].
    destruct (call_pop_snps j model min_freq) as [pop|e]; simpl in Hm;
      [|discriminate].
    injection Hm as <-.
    destruct IH as [IH1 IH2]; [done| |].
    { intros p Hp. apply Hpos. by right. }
    assert (Heq : map pos_of ms = map j_position js).
    { clear -Hrest. induction Hrest as [|j' m' js' ms' Hm' _ IH']; [done|].
      simpl. f_equal; [|done].
      destruct (call_pop_snps j' model min_freq); simpl in Hm';
        [|discriminate]. by injection Hm' as <-. }
    split.
    + simpl. constructor; [|done]. unfold pos_of at 1. simpl. by rewrite Heq.
    + constructor; [|done]. simpl. split; [done|].
      apply Hpos. unfold pos_of. simpl. by left.
Qed.

Lemma calc_SNP_rows gen t1 t2 (mm2overlap : list (Z * gset Z))
    min_freq fdr Mdb mm ov :
  _calc_SNP_count_alternate gen t1 t2 mm2overlap min_freq fdr = Ok Mdb →
  NoDup (map fst mm2overlap) →
  (mm, ov) ∈ mm2overlap →
  NoDup (map pos_of (filter (λ m, m_mm m = mm) Mdb)) ∧
  Forall (λ m, pos_of m ∈ ov) (filter (λ m, m_mm m = mm) Mdb).
Proof.
  unfold _calc_SNP_count_alternate.
  destruct (rmapM _ mm2overlap) as [dbs|e] eqn:Hdbs; simpl; [|discriminate].
  intros [= <-]. apply rmapM_Ok in Hdbs.
  intros Hnd Hin.
  assert (Hgen :
    Forall (λ m, pos_of m ∈ ov) (filter (λ m, m_mm m = mm) (concat dbs)) ∧
    NoDup (map pos_of (filter (λ m, m_mm m = mm) (concat dbs)))).
  { induction Hdbs as [|[mm0 ov0] db l dbs Hdb Hrest IH]; [inversion Hin|].
    simpl in *. apply NoDup_cons in Hnd as [Hfresh Hnd].
    apply snp_level_rows in Hdb as [Hdb1 Hdb2].
    rewrite filter_app.
    assert (Hother : ∀ mm', mm' ∉ map fst l →
              filter (λ m, m_mm m = mm') (concat dbs) = []).
    { clear -Hrest. intros mm' Hn.
      induction Hrest as [|[mm1 ov1] db1 l1 dbs1 Hdb1 _ IH1]; [done|].
      simpl in *. rewrite filter_app.
      apply snp_level_rows in Hdb1 as [_ Hlab].
      rewrite not_elem_of_cons in Hn. destruct Hn as [Hne Hn].
      rewrite IH1 by done. rewrite app_nil_r.
      clear -Hlab Hne. induction Hlab as [|m ms [Hm _] _ IH]; [done|].
      rewrite filter_cons_False by congruence. done. }
    apply elem_of_cons in Hin as [[= -> ->]|Hin].
    - rewrite (Hother mm0 Hfresh), app_nil_r.
      assert (Hall : filter (λ m, m_mm m = mm0) db = db).
      { clear -Hdb2. induction Hdb2 as [|m ms [Hm _] _ IH]; [done|].
        rewrite filter_cons_True by done. by f_equal. }
      rewrite Hall. split; [|done].
      eapply Forall_impl; [exact Hdb2|]. by intros m [_ ?].
    - assert (Hne : mm ≠ mm0).
      { intros ->. apply Hfresh. apply list_elem_of_fmap.
        exists (mm0, ov). done. }
      assert (Hnone : filter (λ m, m_mm m = mm) db = []).
      { clear -Hdb2 Hne. induction Hdb2 as [|m ms [Hm _] _ IH]; [done|].
        rewrite filter_cons_False by congruence. done. }
      rewrite Hnone. simpl. by apply IH. }
  destruct Hgen; done.
Qed.

Lemma mm_loop_keys covT1 covT2 min_cov mms cov1 cov2 :
  map lv_mm (mm_loop covT1 covT2 min_cov mms cov1 cov2) = mms.
Proof.
  revert cov1 cov2. induction mms as [|mm mms IH]; intros; simpl; [done|].
  by rewrite IH.
Qed.

Lemma mm2overlap_keys covT1 covT2 min_cov :
  map fst (_calc_mm2overlap covT1 covT2 min_cov).1 = mms_of covT1 covT2 ∧
  NoDup (map fst (_calc_mm2overlap covT1 covT2 min_cov).1).
Proof.
  unfold _calc_mm2overlap, levels. simpl. rewrite map_map. simpl.
  rewrite mm_loop_keys. split; [done|].
  unfold mms_of. rewrite merge_sort_Permutation. apply NoDup_elements.
Qed.

Lemma count_flag_bound gen t1 t2 (mm2overlap : list (Z * gset Z))
    min_freq fdr Mdb mm ov flag :
  _calc_SNP_count_alternate gen t1 t2 mm2overlap min_freq fdr = Ok Mdb →
  NoDup (map fst mm2overlap) →
  (mm, ov) ∈ mm2overlap →
  0 ≤ count_flag flag mm Mdb ≤ Z.of_nat (size ov).
Proof.
  intros HM Hnd Hin.
  destruct (calc_SNP_rows _ _ _ _ _ _ _ _ _ HM Hnd Hin) as [Hnd' Hall].
  unfold count_flag. split; [lia|].
  apply inj_le.
  set (rows := filter (λ m, m_mm m = mm) Mdb) in *.
  etrans; [apply length_filter|].
  rewrite <- (length_map pos_of rows).
  rewrite <- (size_list_to_set (C := gset Z)) by done.
  apply subseteq_size. intros p Hp.
  apply elem_of_list_to_set, list_elem_of_fmap in Hp as (m & -> & Hm).
  rewrite Forall_forall in Hall. by apply Hall.
Qed.

Lemma overlap_row_ani gen t1 t2 (mm2overlap : list (Z * gset Z))
    min_freq fdr Mdb scaffold mm2coverage name1 name2 mLen mm ov r :
  _calc_SNP_count_alternate gen t1 t2 mm2overlap min_freq fdr = Ok Mdb →
  NoDup (map fst mm2overlap) →
  (mm, ov) ∈ mm2overlap →
  overlap_row scaffold mm2coverage Mdb name1 name2 mLen mm ov = Ok r →
  Cmp.mm r = mm ∧
  let b := Cmp.compared_bases_count r in
  b = Z.of_nat (size ov) ∧
  0 ≤ Cmp.consensus_SNPs r ≤ b ∧ 0 ≤ Cmp.population_SNPs r ≤ b ∧
  Cmp.conANI r = (if bool_decide (b = 0) then None
                  else Some (qdiv (b - Cmp.consensus_SNPs r) b)) ∧
  Cmp.popANI r = (if bool_decide (b = 0) then None
                  else Some (qdiv (b - Cmp.population_SNPs r) b)).
Proof.
  intros HM Hnd Hin. unfold overlap_row.
  destruct (mm2coverage !! mm) as [c|]; simpl; [|discriminate].
  destruct (bool_decide (mLen = 0)); simpl; [discriminate|].
  intros [= <-]. simpl.
  pose proof (count_flag_bound _ _ _ _ _ _ _ _ _ consensus_SNP HM Hnd Hin).
  pose proof (count_flag_bound _ _ _ _ _ _ _ _ _ population_SNP HM Hnd Hin).
  repeat split; try done; lia.
Qed.

Lemma update_rows_ani gen t1 t2 (mm2overlap l : list (Z * gset Z))
    min_freq fdr Mdb scaffold mm2coverage name1 name2 mLen rows :
  _calc_SNP_count_alternate gen t1 t2 mm2overlap min_freq fdr = Ok Mdb →
  NoDup (map fst mm2overlap) →
  (∀ kv, kv ∈ l → kv ∈ mm2overlap) →
  rmapM (λ '((mm, overlap) : Z * gset Z),
           overlap_row scaffold mm2coverage Mdb name1 name2 mLen mm overlap)
        l = Ok rows →
  map Cmp.mm rows = map fst l ∧
  Forall (λ r,
    let b := Cmp.compared_bases_count r in
    0 ≤ Cmp.consensus_SNPs r ≤ b ∧ 0 ≤ Cmp.population_SNPs r ≤ b ∧
    Cmp.conANI r = (if bool_decide (b = 0) then None
                    else Some (qdiv (b - Cmp.consensus_SNPs r) b)) ∧
    Cmp.popANI r = (if bool_decide (b = 0) then None
                    else Some (qdiv (b - Cmp.population_SNPs r) b))) rows.
Proof.
  intros HM Hnd Hin Hrows. apply rmapM_Ok in Hrows.
  induction Hrows as [|[mm ov] r l rows Hr Hrest IH].
  - split; [done|constructor].
  - destruct IH as [IH1 IH2].
    { intros kv Hkv. apply Hin. by right. }
    assert (Hmem : (mm, ov) ∈ mm2overlap) by (apply Hin; left).
    destruct (overlap_row_ani _ _ _ _ _ _ _ _ _ _ _ _ _ _ _ HM Hnd Hmem Hr)
      as (Hmm & Hb & Hc & Hp & HcA & HpA).
    split; [simpl; by rewrite Hmm, IH1|].
    constructor; [|done]. simpl. done.
Qed.

Lemma compare_pair_rows gen scaffold mLen min_cov min_freq fdr
    (store_coverage store_mm_locations : bool) (st st' : pair_state)
    (covT1 covT2 : gmap Z (gmap Z Z)) (SNPtable1 SNPtable2 : list row)
    (name1 name2 : string) :
  compare_pair gen scaffold mLen min_cov min_freq fdr store_coverage
    store_mm_locations st (covT1, SNPtable1, name1) (covT2, SNPtable2, name2)
  = Ok st' →
  ∃ rows : list Cmp.row,
    table st' = table st ++ rows ∧
    map Cmp.mm rows = mms_of covT1 covT2 ∧
    Forall ani_row_spec rows.
Proof.
  unfold compare_pair.
  destruct (_calc_mm2overlap covT1 covT2 min_cov) as [mm2overlap mm2coverage]
    eqn:Hov.
  destruct (mm2overlap_keys covT1 covT2 min_cov) as [Hkeys Hnd].
  rewrite Hov in Hkeys, Hnd. simpl in Hkeys, Hnd.
  destruct (_calc_SNP_count_alternate gen SNPtable1 SNPtable2 mm2overlap
              min_freq fdr) as [Mdb|e] eqn:HM; simpl; [|discriminate].
  unfold _update_overlap_table.
  destruct (rmapM _ mm2overlap) as [rows|e] eqn:Hrows; simpl; [|discriminate].
  intros [= <-]. simpl. exists rows. split; [done|].
  destruct (update_rows_ani _ _ _ _ mm2overlap _ _ _ _ _ _ _ _ _ HM Hnd
              (λ _ H, H) Hrows) as [Hmm Hall].
  split; [by rewrite Hmm|].
  eapply Forall_impl; [exact Hall|].
  intros r (Hc & Hp & HcA & HpA). unfold ani_row_spec. simpl in *.
  split; [|split].
  - intros Hpos. rewrite HcA, HpA.
    rewrite bool_decide_eq_false_2 by lia.
    split; [done|]. split; [done|].
    pose proof (qdiv_unit_interval
      (Cmp.compared_bases_count r - Cmp.consensus_SNPs r)
      (Cmp.compared_bases_count r)) as [? ?]; [lia|lia|].
    pose proof (qdiv_unit_interval
      (Cmp.compared_bases_count r - Cmp.population_SNPs r)
      (Cmp.compared_bases_count r)) as [? ?]; [lia|lia|].
    done.
  - intros Hz. rewrite HcA, HpA. by rewrite bool_decide_eq_true_2.
  - lia.
Qed.

Lemma run_pairs_rows gen scaffold mLen min_cov min_freq fdr
    (store_coverage store_mm_locations : bool)
    (ps : list ((gmap Z (gmap Z Z) * list row * string)
                * (gmap Z (gmap Z Z) * list row * string)))
    (st st' : pair_state) :
  Forall ani_row_spec (table st) →
  run_pairs (compare_pair gen scaffold mLen min_cov min_freq fdr
               store_coverage store_mm_locations) st ps = Ok st' →
  Forall ani_row_spec (table st').
Proof.
  revert st. induction ps as [|[[[c1 t1] n1] [[c2 t2] n2]] ps IH];
    intros st Hst.
  - simpl. by intros [= <-].
  - cbn [run_pairs].
    destruct (compare_pair gen scaffold mLen min_cov min_freq fdr
                store_coverage store_mm_locations st (c1, t1, n1)
                (c2, t2, n2)) as [st1|e] eqn:Hp;
      unfold mbind, result_bind; [|discriminate].
    apply compare_pair_rows in Hp as (rows & Heq & _ & Hrows).
    apply IH. rewrite Heq. by apply Forall_app.
Qed.

(** C4. Every row of the comparison table that [compare_scaffold] returns
    (one per sample pair and mismatch level) has
    conANI = (compared - consensus_SNPs) / compared and
    popANI = (compared - population_SNPs) / compared when its compared-base
    count is positive, both values lying in [0,1], and has NaN in both
    columns, never a ratio, when the count is 0. *)
Theorem comparison_row_ani gen name2SNVprofile scaffold names sProfiles
    mLen kwargs Cdb Mdb pair2mm2cov tag :
  compare_scaffold gen name2SNVprofile scaffold names sProfiles mLen kwargs
  = Ok (Profile Cdb Mdb pair2mm2cov tag) →
  Forall (λ r,
    let b := Cmp.compared_bases_count r in
    (0 < b →
       Cmp.conANI r
         = Some (inject_Z (b - Cmp.consensus_SNPs r) / inject_Z b)%Q ∧
       Cmp.popANI r
         = Some (inject_Z (b - Cmp.population_SNPs r) / inject_Z b)%Q ∧
       (0 <= inject_Z (b - Cmp.consensus_SNPs r) / inject_Z b)%Q ∧
       (inject_Z (b - Cmp.consensus_SNPs r) / inject_Z b <= 1)%Q ∧
       (0 <= inject_Z (b - Cmp.population_SNPs r) / inject_Z b)%Q ∧
       (inject_Z (b - Cmp.population_SNPs r) / inject_Z b <= 1)%Q) ∧
    (b = 0 → Cmp.conANI r = None ∧ Cmp.popANI r = None) ∧
    0 ≤ b) Cdb.
Proof.
  unfold compare_scaffold.
  destruct (load_samples _ _ _ _) as [samples|e]; simpl; [|discriminate].
  case_decide.
  - intros [= <- _ _ _]. constructor.
  - destruct (run_pairs _ _ _) as [st|e] eqn:Hrun; simpl; [|discriminate].
    intros [= <- _ _ _].
    eapply run_pairs_rows; [|exact Hrun]. constructor.
Qed.

Lemma comparison_row_ani_witness :
  Forall (λ r,
    let b := Cmp.compared_bases_count r in
    (0 < b →
       Cmp.conANI r
         = Some (inject_Z (b - Cmp.consensus_SNPs r) / inject_Z b)%Q ∧
       Cmp.popANI r
         = Some (inject_Z (b - Cmp.population_SNPs r) / inject_Z b)%Q ∧
       (0 <= inject_Z (b - Cmp.consensus_SNPs r) / inject_Z b)%Q ∧
       (inject_Z (b - Cmp.consensus_SNPs r) / inject_Z b <= 1)%Q ∧
       (0 <= inject_Z (b - Cmp.population_SNPs r) / inject_Z b)%Q ∧
       (inject_Z (b - Cmp.population_SNPs r) / inject_Z b <= 1)%Q) ∧
    (b = 0 → Cmp.conANI r = None ∧ Cmp.popANI r = None) ∧
    0 ≤ b) ex_Cdb_chr1.
Proof.
  apply (comparison_row_ani ex_generate_snp_model None "chr1"
           ["A.bam"; "B.bam"] [ex_profile_A; ex_profile_B] 5 no_kwargs
           ex_Cdb_chr1 [] ∅ "chr1").
  vm_compute. reflexivity.
Defined.

(** [calc_cov_ani] on the two rows of one scaffold and pair at the levels 2
    and 5 with the default ceiling 100: the level-5 row is the one used. *)
Lemma calc_cov_ani_spec_witness :
  let ceiling := default 100 (kw_g_mm no_kwargs) in
  ∃ (kept : list Cmp.row) (popANI : option Q),
    let tcb := Zsum (map Cmp.compared_bases_count kept) in
    calc_cov_ani ex_Cdb 1000 no_kwargs
      = Ok (popANI, (inject_Z tcb / inject_Z 1000)%Q) ∧
    (∀ r, r ∈ kept →
        r ∈ ex_Cdb ∧ Cmp.mm r ≤ ceiling ∧
        ∀ r', r' ∈ ex_Cdb → cmp_key r' = cmp_key r → Cmp.mm r' ≤ ceiling →
              Cmp.mm r' ≤ Cmp.mm r) ∧
    NoDup (map cmp_key kept) ∧
    (∀ r, r ∈ ex_Cdb → Cmp.mm r ≤ ceiling →
        ∃ k, k ∈ kept ∧ cmp_key k = cmp_key r) ∧
    (tcb = 0 → popANI = None) ∧
    (tcb ≠ 0 →
       popANI = Some (Qsum (map (λ r,
                   match Cmp.popANI r with
                   | Some a => a * inject_Z (Cmp.compared_bases_count r)
                   | None => 0
                   end) kept) / inject_Z tcb)%Q).
Proof. apply (calc_cov_ani_spec ex_Cdb 1000 no_kwargs). lia. Defined.

Example kept_rows_levels_2_and_5 :
  kept_rows ex_Cdb 100 = [ex_cmp_row 5 600 (9 # 10)%Q] ∧
  calc_cov_ani ex_Cdb 1000 no_kwargs
  = Ok (Some (5400 # 6000)%Q, (600 # 1000)%Q).
Proof. split; vm_compute; reflexivity. Qed.

(** ** The rows the SNP caller considers at a level *)

(** On a table sorted by [mm], as [_get_SNP_table] returns it, the rows
    kept for a level are the rows at the overlap positions with the highest
    [mm] of the whole table at their position. *)
Lemma s_all_spec (t : list row) (covs : gset Z) r :
  StronglySorted (key_le mm) t →
  r ∈ s_all t covs →
  r ∈ t ∧ position r ∈ covs ∧
  ∀ r', r' ∈ t → position r' = position r → mm r' ≤ mm r.
Proof.
  intros Hs Hr. split; [|split].
  - unfold s_all in Hr. case_decide; [|inversion Hr].
    apply drop_duplicates_last_elem in Hr.
    by apply list_elem_of_filter in Hr as [_ ?].
  - by eapply s_all_position.
  - intros r' Hr' Hpos. pose proof (s_all_position _ _ _ Hr) as Hcov.
    unfold s_all in Hr. case_decide; [|inversion Hr].
    eapply (drop_duplicates_last_max position mm); [|exact Hr| |done].
    + clear -Hs. induction Hs as [|a l Hs IH Hall]; [constructor|].
      rewrite filter_cons. case_decide; [|done].
      constructor; [done|].
      rewrite Forall_forall in *. intros x Hx.
      apply list_elem_of_filter in Hx as [_ Hx]. auto.
    + apply list_elem_of_filter. split; [|done]. by rewrite Hpos.
Qed.

(** C2. At mismatch level 0, with position 3 in the overlap set, the row
    taken from a table that has a row of level 0 and a row of level 2 at
    position 3 is the row of level 2: the rows considered are not limited
    to those whose own level is at most the level evaluated. *)
Theorem s_all_ignores_level :
  s_all ex_table_two_levels {[2; 3; 4]} = [ex_row_B 3 2 bC 4 6] ∧
  snp_level [] ex_table_two_levels ex_model ex_min_freq 0 {[2; 3; 4]}
  = Ok [{| m_row := {| j_position := 3; side_1 := None;
                       side_2 := Some (ex_row_B 3 2 bC 4 6) |};
           consensus_SNP := true; population_SNP := false; m_mm := 0 |}].
Proof. split; vm_compute; reflexivity. Qed.

(** ** The default minimum variant frequency *)

(** Without a [min_freq] option the comparison behaves as with
    [min_freq = 5]. *)
Lemma compare_scaffold_no_min_freq gen name2SNVprofile scaffold names
    sProfiles mLen :
  compare_scaffold gen name2SNVprofile scaffold names sProfiles mLen no_kwargs
  = compare_scaffold gen name2SNVprofile scaffold names sProfiles mLen
      (ex_kwargs_min_freq (inject_Z 5)).
Proof. reflexivity. Qed.

(** C8. With no [min_freq] option the scaffold comparison of the samples A
    and B counts position 3 as a population SNP, as it does with
    [min_freq = 5] and not as it does with [min_freq = 0.05], which finds
    the reference base present (4 of 10 reads) and counts none. *)
Theorem compare_scaffold_default_min_freq :
  population_SNPs_of
    (compare_scaffold ex_generate_snp_model None "chr1" ["A.bam"; "B.bam"]
       [ex_profile_A; ex_profile_B] 5 no_kwargs) = [1] ∧
  population_SNPs_of
    (compare_scaffold ex_generate_snp_model None "chr1" ["A.bam"; "B.bam"]
       [ex_profile_A; ex_profile_B] 5 (ex_kwargs_min_freq (inject_Z 5)))
  = [1] ∧
  population_SNPs_of
    (compare_scaffold ex_generate_snp_model None "chr1" ["A.bam"; "B.bam"]
       [ex_profile_A; ex_profile_B] 5 (ex_kwargs_min_freq (5 # 100)%Q))
  = [0].
Proof. repeat split; vm_compute; reflexivity. Qed.

(** ** The scheduler *)

Lemma item3_marker (l : list ScaffProfile) :
  FailedMarker ∈ l → rmapM item3 l = Raise KeyError.
Proof.
  induction l as [|s l IH]; [inversion 1|].
  rewrite elem_of_cons. intros [<-|Hin]; [reflexivity|].
  simpl. destruct s; simpl; [|reflexivity]. by rewrite IH.
Qed.

(** Once the wrapper has turned a scaffold's exception into the failure
    frame, the look-up [s[3]] on that frame raises and the run returns no
    table at all. *)
Lemma compare_scaffolds_marker_raises gen name2SNVprofile future_raises
    names Sprofiles scaffolds_to_compare s2l kwargs cmds :
  iterate_commands names Sprofiles s2l scaffolds_to_compare kwargs = Ok cmds →
  FailedMarker ∈ first_pass gen name2SNVprofile future_raises
                   (default 6 (kw_processes kwargs)) cmds →
  compare_scaffolds gen name2SNVprofile future_raises names Sprofiles
    scaffolds_to_compare s2l kwargs = Raise KeyError.
Proof.
  intros Hcmds Hin. unfold compare_scaffolds. rewrite Hcmds. simpl.
  by rewrite (item3_marker _ Hin).
Qed.

(** A scaffold whose worker died in the process pool leaves no result, is
    found in the failed set and is compared on the thread pool. *)
Example retry_recovers_dead_worker :
  first_pass ex_generate_snp_model None ex_chr1_dies 6 [ex_cmd "chr1" 5] = [] ∧
  failed_scaffs_of ["chr1"] [] [] = ["chr1"] ∧
  scaffolds_of
    (compare_scaffolds ex_generate_snp_model None ex_chr1_dies
       ["A.bam"; "B.bam"] [ex_profile_A2; ex_profile_B2] ["chr1"] ex_s2l
       no_kwargs) = Ok ["chr1"].
Proof. repeat split; vm_compute; reflexivity. Qed.

(** C3. Two scaffolds are requested; the comparison of "chr1" succeeds and
    that of "chr2" raises inside [compare_scaffold], which the wrapper
    turns into the failure frame. The run then raises [KeyError], on one
    process and on the process pool alike, and returns no row of "chr1". *)
Theorem compare_scaffolds_failed_scaffold_raises :
  population_SNPs_of
    (compare_scaffold ex_generate_snp_model None "chr1" ["A.bam"; "B.bam"]
       [ex_profile_A2; ex_profile_B2] 5 no_kwargs) = [1] ∧
  scaffold_profile_wrapper ex_generate_snp_model None (ex_cmd "chr2" 2)
  = FailedMarker ∧
  compare_scaffolds ex_generate_snp_model None ex_no_fault
    ["A.bam"; "B.bam"] [ex_profile_A2; ex_profile_B2] ["chr1"; "chr2"]
    ex_s2l (ex_kwargs_processes 1) = Raise KeyError ∧
  compare_scaffolds ex_generate_snp_model None ex_no_fault
    ["A.bam"; "B.bam"] [ex_profile_A2; ex_profile_B2] ["chr1"; "chr2"]
    ex_s2l no_kwargs = Raise KeyError.
Proof. repeat split; vm_compute; reflexivity. Qed.

(** ** The entry point *)

(** C10. With the greedy-clustering option on, [main] prints the
    'not available' message and returns as soon as the arguments are
    validated: everything it prints, calls or writes is that one message,
    so neither [greedy_main] nor [compare_scaffolds] is called and nothing
    is stored or written. *)
Theorem main_greedy_not_available gen future_raises (args : Args) :
  kw_greedy_clustering (vargs args) = Some true →
  (∀ parsed, parse_validate args = Ok parsed →
     main gen future_raises args
     = ([EPrint "Greedy clustering not available at the moment; sorry"],
        Ok ())) ∧
  (∀ ev, ev ∈ (main gen future_raises args).1 →
     ev = EPrint "Greedy clustering not available at the moment; sorry").
Proof.
  intros Hg. unfold main. rewrite Hg. simpl.
  destruct (parse_validate args) as [parsed|e]; simpl.
  - split; [done|]. intros ev Hev. by apply list_elem_of_singleton in Hev.
  - split; [discriminate|]. intros ev Hev. inversion Hev.
Qed.

Lemma main_greedy_not_available_witness :
  (∀ parsed, parse_validate ex_args_greedy = Ok parsed →
     main ex_generate_snp_model ex_no_fault ex_args_greedy
     = ([EPrint "Greedy clustering not available at the moment; sorry"],
        Ok ())) ∧
  (∀ ev, ev ∈ (main ex_generate_snp_model ex_no_fault ex_args_greedy).1 →
     ev = EPrint "Greedy clustering not available at the moment; sorry").
Proof.
  apply (main_greedy_not_available ex_generate_snp_model ex_no_fault
           ex_args_greedy).
  reflexivity.
Defined.

Example main_greedy_run :
  main ex_generate_snp_model ex_no_fault ex_args_greedy
  = ([EPrint "Greedy clustering not available at the moment; sorry"], Ok ()).
Proof. vm_compute. reflexivity. Qed.

(** * Further properties of the module *)

(** ** Population SNPs are consensus SNPs *)

Lemma call_pop_implies_con (r : joined) (model : Z → Z) (min_freq : Q) :
  call_pop_snps r model min_freq = Ok true → call_con_snps r = true.
Proof.
  unfold call_pop_snps, call_con_snps.
  destruct (side_1 r) as [r1|], (side_2 r) as [r2|]; try done.
  case_bool_decide; [discriminate|done].
Qed.

Lemma snp_level_pop_con t1 t2 model min_freq mm (covs : gset Z) rows :
  snp_level t1 t2 model min_freq mm covs = Ok rows →
  Forall (λ m, population_SNP m = true → consensus_SNP m = true) rows.
Proof.
  unfold snp_level. case_decide.
  - intros [= <-]. constructor.
  - intros Hrows. apply rmapM_Ok in Hrows.
    induction Hrows as [|j m js ms Hm _ IH]; [constructor|].
    constructor; [|done].
    destruct (call_pop_snps j model min_freq) as [pop|e] eqn:Hpop;
      simpl in Hm; [|discriminate].
    injection Hm as <-. simpl. intros ->.
    by eapply call_pop_implies_con.
Qed.

Lemma calc_SNP_pop_con gen t1 t2 (mm2overlap : list (Z * gset Z))
    min_freq fdr Mdb :
  _calc_SNP_count_alternate gen t1 t2 mm2overlap min_freq fdr = Ok Mdb →
  Forall (λ m, population_SNP m = true → consensus_SNP m = true) Mdb.
Proof.
  unfold _calc_SNP_count_alternate.
  destruct (rmapM _ mm2overlap) as [dbs|e] eqn:Hdbs; simpl; [|discriminate].
  intros [= <-]. apply rmapM_Ok in Hdbs.
  induction Hdbs as [|[mm ov] db l dbs Hdb _ IH]; [constructor|].
  simpl. apply Forall_app. split; [|done].
  by eapply snp_level_pop_con.
Qed.

Lemma count_flag_pop_le_con (mm : Z) (Mdb : list merged) :
  Forall (λ m, population_SNP m = true → consensus_SNP m = true) Mdb →
  count_flag population_SNP mm Mdb ≤ count_flag consensus_SNP mm Mdb.
Proof.
  intros Hall. unfold count_flag. apply inj_le.
  assert (Hsub : Forall (λ m, population_SNP m = true → consensus_SNP m = true)
                   (filter (λ m, m_mm m = mm) Mdb)).
  { rewrite Forall_forall in *. intros m Hm.
    apply list_elem_of_filter in Hm as [_ Hm]. auto. }
  induction Hsub as [|m ms Hm _ IH]; [done|].
  rewrite !filter_cons.
  destruct (decide (population_SNP m = true)) as [Hp|Hp].
  - rewrite decide_True by auto. simpl. lia.
  - case_decide; simpl; lia.
Qed.

(** ** Lifting a property of one row to the table of a scaffold *)

Lemma rmapM_Forall {A B} (f : A → result B) (R : B → Prop) (l : list A)
    (bs : list B) :
  rmapM f l = Ok bs →
  (∀ a b, a ∈ l → f a = Ok b → R b) →
  Forall R bs.
Proof.
  intros Hl. apply rmapM_Ok in Hl.
  induction Hl as [|a b l bs Hab _ IH]; intros HR; [constructor|].
  constructor.
  - apply (HR a b); [left|done].
  - apply IH. intros a' b' Ha'. apply HR. by right.
Qed.

Section row_invariant.
Variable gen : Q → Z → Z.
Variables (scaffold : string) (mLen min_cov : Z) (min_freq fdr : Q).
Variable P : Cmp.row → Prop.

Hypothesis P_row :
  ∀ covT1 covT2 t1 t2 name1 name2 Mdb mm ov r,
    _calc_SNP_count_alternate gen t1 t2
      (_calc_mm2overlap covT1 covT2 min_cov).1 min_freq fdr = Ok Mdb →
    (mm, ov) ∈ (_calc_mm2overlap covT1 covT2 min_cov).1 →
    overlap_row scaffold
      (mm2coverage_dict (_calc_mm2overlap covT1 covT2 min_cov).2)
      Mdb name1 name2 mLen mm ov = Ok r →
    P r.

Lemma compare_pair_invariant (store_coverage store_mm_locations : bool)
    (st st' : pair_state)
    (s1 s2 : gmap Z (gmap Z Z) * list row * string) :
  Forall P (table st) →
  compare_pair gen scaffold mLen min_cov min_freq fdr store_coverage
    store_mm_locations st s1 s2 = Ok st' →
  Forall P (table st').
Proof.
  destruct s1 as [[covT1 t1] n1], s2 as [[covT2 t2] n2].
  intros Hst. unfold compare_pair.
  pose proof (P_row covT1 covT2 t1 t2 n1 n2) as HP.
  destruct (_calc_mm2overlap covT1 covT2 min_cov) as [mm2overlap mm2coverage].
  simpl in HP.
  destruct (_calc_SNP_count_alternate gen t1 t2 mm2overlap min_freq fdr)
    as [Mdb|e] eqn:HM; simpl; [|discriminate].
  unfold _update_overlap_table.
  destruct (rmapM _ mm2overlap) as [rows|e] eqn:Hrows; simpl; [|discriminate].
  intros [= <-]. simpl. apply Forall_app. split; [done|].
  eapply rmapM_Forall; [exact Hrows|].
  intros [mm ov] r Hin Hr. by eapply HP.
Qed.

Lemma run_pairs_invariant (store_coverage store_mm_locations : bool)
    (ps : list ((gmap Z (gmap Z Z) * list row * string)
                * (gmap Z (gmap Z Z) * list row * string)))
    (st st' : pair_state) :
  Forall P (table st) →
  run_pairs (compare_pair gen scaffold mLen min_cov min_freq fdr
               store_coverage store_mm_locations) st ps = Ok st' →
  Forall P (table st').
Proof.
  revert st. induction ps as [|[s1 s2] ps IH]; intros st Hst.
  - simpl. by intros [= <-].
  - cbn [run_pairs].
    destruct (compare_pair gen scaffold mLen min_cov min_freq fdr
                store_coverage store_mm_locations st s1 s2)
      as [st1|e] eqn:Hp; unfold mbind, result_bind; [|discriminate].
    apply IH. by eapply compare_pair_invariant.
Qed.

End row_invariant.

Lemma compare_scaffold_invariant (P : string → Z → Kwargs → Cmp.row → Prop)
    gen name2SNVprofile scaffold names sProfiles mLen kwargs
    Cdb Mdb pair2mm2cov tag :
  (∀ covT1 covT2 t1 t2 name1 name2 Mdb mm ov r,
    let min_cov := default 5 (kw_min_cov kwargs) in
    let min_freq := default (inject_Z 5) (kw_min_freq kwargs) in
    let fdr := default (1 # 1000000)%Q (kw_fdr kwargs) in
    _calc_SNP_count_alternate gen t1 t2
      (_calc_mm2overlap covT1 covT2 min_cov).1 min_freq fdr = Ok Mdb →
    (mm, ov) ∈ (_calc_mm2overlap covT1 covT2 min_cov).1 →
    overlap_row scaffold
      (mm2coverage_dict (_calc_mm2overlap covT1 covT2 min_cov).2)
      Mdb name1 name2 mLen mm ov = Ok r →
    P scaffold mLen kwargs r) →
  compare_scaffold gen name2SNVprofile scaffold names sProfiles mLen kwargs
  = Ok (Profile Cdb Mdb pair2mm2cov tag) →
  Forall (P scaffold mLen kwargs) Cdb.
Proof.
  intros HP. unfold compare_scaffold.
  destruct (load_samples _ _ _ _) as [samples|e]; simpl; [|discriminate].
  case_decide.
  - intros [= <- _ _ _]. constructor.
  - destruct (run_pairs _ _ _) as [st|e] eqn:Hrun; simpl; [|discriminate].
    intros [= <- _ _ _].
    refine (run_pairs_invariant gen scaffold mLen _ _ _
              (P scaffold mLen kwargs) _ _ _ _ _ _ _ Hrun);
      [intros; by eapply HP|constructor].
Qed.

Lemma qdiv_mono_num (a a' b : Z) :
  a ≤ a' → 0 < b → (qdiv a b <= qdiv a' b)%Q.
Proof.
  intros Ha Hb. unfold qdiv.
  destruct b as [|pb|pb]; try lia.
  unfold Qdiv, Qinv, Qmult, Qle, inject_Z. simpl. nia.
Qed.

Lemma overlap_cov_unit (T1 T2 : gset Z) :
  (0 <= overlap_cov (T1 ∩ T2) (T1 ∪ T2))%Q ∧
  (overlap_cov (T1 ∩ T2) (T1 ∪ T2) <= 1)%Q.
Proof.
  unfold overlap_cov.
  assert (Hsub : (size (T1 ∩ T2) ≤ size (T1 ∪ T2))%nat).
  { apply subseteq_size. intros p Hp.
    apply elem_of_intersection in Hp as [Hp _]. apply elem_of_union. by left. }
  case_decide.
  - apply qdiv_unit_interval; lia.
  - split; [apply Qle_refl|by unfold Qle].
Qed.

Lemma mm2coverage_dict_lookup (d : list (Z * Q)) (k : Z) (c : Q) :
  mm2coverage_dict d !! k = Some c → (k, c) ∈ d.
Proof.
  unfold mm2coverage_dict.
  assert (Hgen : ∀ m : gmap Z Q,
            foldl (λ m kv, <[kv.1 := kv.2]> m) m d !! k = Some c →
            (k, c) ∈ d ∨ m !! k = Some c).
  { induction d as [|[k0 c0] d IH]; intros m; simpl; [by right|].
    intros Hl. apply IH in Hl as [Hl|Hl]; [left; by right|].
    destruct (decide (k0 = k)) as [->|Hne].
    - rewrite lookup_insert_eq in Hl. injection Hl as ->. left. left.
    - rewrite lookup_insert_ne in Hl by done. by right. }
  intros Hl. apply Hgen in Hl as [Hl|Hl]; [done|].
  by rewrite lookup_empty in Hl.
Qed.

Lemma mm2coverage_unit covT1 covT2 min_cov (mm : Z) (c : Q) :
  mm2coverage_dict (_calc_mm2overlap covT1 covT2 min_cov).2 !! mm = Some c →
  (0 <= c)%Q ∧ (c <= 1)%Q.
Proof.
  intros Hl. apply mm2coverage_dict_lookup in Hl.
  unfold _calc_mm2overlap in Hl. simpl in Hl.
  apply list_elem_of_fmap in Hl as (l & Heq & Hl).
  injection Heq as -> ->.
  apply mm_loop_elem in Hl as (pre & post & _ & ->). simpl.
  apply overlap_cov_unit.
Qed.

Lemma compare_scaffold_row_facts gen name2SNVprofile scaffold names
    sProfiles mLen kwargs Cdb Mdb pair2mm2cov tag :
  compare_scaffold gen name2SNVprofile scaffold names sProfiles mLen kwargs
  = Ok (Profile Cdb Mdb pair2mm2cov tag) →
  Forall (row_facts scaffold mLen) Cdb.
Proof.
  apply (compare_scaffold_invariant (λ scaffold mLen _, row_facts scaffold mLen)).
  intros covT1 covT2 t1 t2 n1 n2 Mdb' mm ov r min_cov min_freq fdr HM Hin Hr.
  destruct (mm2overlap_keys covT1 covT2 min_cov) as [_ Hnd].
  destruct (overlap_row_ani _ _ _ _ _ _ _ _ _ _ _ _ _ _ _ HM Hnd Hin Hr)
    as (_ & _ & Hc & Hp & HcA & HpA).
  unfold overlap_row in Hr.
  destruct (mm2coverage_dict _ !! mm) as [c|] eqn:Hcov; simpl in Hr;
    [|discriminate].
  destruct (bool_decide (mLen = 0)) eqn:Hlen; simpl in Hr; [discriminate|].
  apply bool_decide_eq_false in Hlen.
  apply mm2coverage_unit in Hcov as [? ?].
  assert (Hle : Cmp.population_SNPs r ≤ Cmp.consensus_SNPs r).
  { injection Hr as <-. simpl.
    apply count_flag_pop_le_con. by eapply calc_SNP_pop_con. }
  assert (Hani : ani_row_spec r).
  { unfold ani_row_spec. rewrite HcA, HpA. simpl. split; [|split].
    - intros Hpos. rewrite bool_decide_eq_false_2 by lia.
      split; [done|]. split; [done|].
      pose proof (qdiv_unit_interval
        (Cmp.compared_bases_count r - Cmp.consensus_SNPs r)
        (Cmp.compared_bases_count r)) as [? ?]; [lia|lia|].
      pose proof (qdiv_unit_interval
        (Cmp.compared_bases_count r - Cmp.population_SNPs r)
        (Cmp.compared_bases_count r)) as [? ?]; [lia|lia|].
      done.
    - intros Hz. by rewrite bool_decide_eq_true_2.
    - lia. }
  unfold row_facts. split; [done|]. rewrite HcA, HpA. clear HcA HpA Hani.
  injection Hr as <-. simpl in *.
  repeat split; try done; try lia.
  intros c' p'. case_bool_decide; [discriminate|].
  intros [= <-] [= <-]. apply qdiv_mono_num; lia.
Qed.

(** X1. In every row of the comparison table of a scaffold the counts are
    ordered 0 ≤ population SNPs ≤ consensus SNPs ≤ compared bases, so that
    popANI is never below conANI when both are defined. *)
Theorem compare_scaffold_pop_above_con gen name2SNVprofile scaffold names
    sProfiles mLen kwargs Cdb Mdb pair2mm2cov tag :
  compare_scaffold gen name2SNVprofile scaffold names sProfiles mLen kwargs
  = Ok (Profile Cdb Mdb pair2mm2cov tag) →
  Forall (λ r,
    0 ≤ Cmp.population_SNPs r ≤ Cmp.consensus_SNPs r ∧
    Cmp.consensus_SNPs r ≤ Cmp.compared_bases_count r ∧
    ∀ c p, Cmp.conANI r = Some c → Cmp.popANI r = Some p → (c <= p)%Q) Cdb.
Proof.
  intros H. eapply Forall_impl; [by eapply compare_scaffold_row_facts|].
  intros r (_ & _ & _ & _ & ? & ? & _ & _ & _ & ?). done.
Qed.

Lemma compare_scaffold_pop_above_con_witness :
  Forall (λ r,
    0 ≤ Cmp.population_SNPs r ≤ Cmp.consensus_SNPs r ∧
    Cmp.consensus_SNPs r ≤ Cmp.compared_bases_count r ∧
    ∀ c p, Cmp.conANI r = Some c → Cmp.popANI r = Some p → (c <= p)%Q)
    ex_Cdb_chr1.
Proof.
  apply (compare_scaffold_pop_above_con ex_generate_snp_model None "chr1"
           ["A.bam"; "B.bam"] [ex_profile_A; ex_profile_B] 5 no_kwargs
           ex_Cdb_chr1 [] ∅ "chr1").
  vm_compute. reflexivity.
Defined.

(** X2. Every row of the comparison table of a scaffold carries that
    scaffold's name and length, the length is not zero, the
    percent-genome-compared column is the compared-base count over the
    length, and the coverage-overlap column lies in [0,1]. *)
Theorem compare_scaffold_row_columns gen name2SNVprofile scaffold names
    sProfiles mLen kwargs Cdb Mdb pair2mm2cov tag :
  compare_scaffold gen name2SNVprofile scaffold names sProfiles mLen kwargs
  = Ok (Profile Cdb Mdb pair2mm2cov tag) →
  Forall (λ r,
    Cmp.scaffold r = scaffold ∧ Cmp.length r = mLen ∧ mLen ≠ 0 ∧
    Cmp.percent_genome_compared r
      = (inject_Z (Cmp.compared_bases_count r) / inject_Z mLen)%Q ∧
    (0 <= Cmp.coverage_overlap r)%Q ∧ (Cmp.coverage_overlap r <= 1)%Q) Cdb.
Proof.
  intros H. eapply Forall_impl; [by eapply compare_scaffold_row_facts|].
  intros r (_ & ? & ? & ? & _ & _ & ? & ? & ? & _). done.
Qed.

Lemma compare_scaffold_row_columns_witness :
  Forall (λ r,
    Cmp.scaffold r = "chr1" ∧ Cmp.length r = 5 ∧ 5 ≠ 0 ∧
    Cmp.percent_genome_compared r
      = (inject_Z (Cmp.compared_bases_count r) / inject_Z 5)%Q ∧
    (0 <= Cmp.coverage_overlap r)%Q ∧ (Cmp.coverage_overlap r <= 1)%Q)
    ex_Cdb_chr1.
Proof.
  apply (compare_scaffold_row_columns ex_generate_snp_model None "chr1"
           ["A.bam"; "B.bam"] [ex_profile_A; ex_profile_B] 5 no_kwargs
           ex_Cdb_chr1 [] ∅ "chr1").
  vm_compute. reflexivity.
Defined.

(** ** Coverage overlap: levels, symmetry, self-comparison *)

(** X3. The two dicts [_calc_mm2overlap] returns have the same keys, in
    strictly ascending order: exactly the mismatch levels that are a key
    of either input. *)
Theorem calc_mm2overlap_levels (covT1 covT2 : gmap Z (gmap Z Z))
    (min_cov : Z) :
  map fst (_calc_mm2overlap covT1 covT2 min_cov).1
  = map fst (_calc_mm2overlap covT1 covT2 min_cov).2 ∧
  StronglySorted Z.lt (map fst (_calc_mm2overlap covT1 covT2 min_cov).1) ∧
  ∀ mm, mm ∈ map fst (_calc_mm2overlap covT1 covT2 min_cov).1
        ↔ is_Some (covT1 !! mm) ∨ is_Some (covT2 !! mm).
Proof.
  destruct (mm2overlap_keys covT1 covT2 min_cov) as [Hk _].
  split; [|split].
  - rewrite Hk. unfold _calc_mm2overlap, levels. simpl.
    rewrite map_map. simpl. by rewrite mm_loop_keys.
  - rewrite Hk. apply mms_of_sorted.
  - intros mm. rewrite Hk. unfold mms_of.
    rewrite merge_sort_Permutation, elem_of_elements, elem_of_union.
    by rewrite !elem_of_dom.
Qed.

Lemma mm_loop_swap covT1 covT2 min_cov mms cov1 cov2 :
  map (λ l, (lv_mm l, coveredInBoth l, lv_cov l))
    (mm_loop covT2 covT1 min_cov mms cov2 cov1)
  = map (λ l, (lv_mm l, coveredInBoth l, lv_cov l))
      (mm_loop covT1 covT2 min_cov mms cov1 cov2).
Proof.
  revert cov1 cov2. induction mms as [|mm mms IH]; intros cov1 cov2; [done|].
  simpl. rewrite IH. f_equal.
  set (T1 := covered min_cov (step_cov covT1 mm cov1)).
  set (T2 := covered min_cov (step_cov covT2 mm cov2)).
  by rewrite (comm_L (∩) T2 T1), (comm_L (∪) T2 T1).
Qed.

(** X4. The coverage overlap is symmetric: exchanging the two samples
    gives the same overlap set and the same coverage at every level. *)
Theorem calc_mm2overlap_symmetric (covT1 covT2 : gmap Z (gmap Z Z))
    (min_cov : Z) :
  _calc_mm2overlap covT2 covT1 min_cov = _calc_mm2overlap covT1 covT2 min_cov.
Proof.
  unfold _calc_mm2overlap, levels.
  assert (Hm : mms_of covT2 covT1 = mms_of covT1 covT2).
  { unfold mms_of. by rewrite (comm_L (∪) (dom covT2)). }
  rewrite Hm.
  pose proof (mm_loop_swap covT1 covT2 min_cov (mms_of covT1 covT2) ∅ ∅)
    as Hs.
  f_equal.
  - apply (f_equal (map (λ x : Z * gset Z * Q, (x.1.1, x.1.2)))) in Hs.
    by rewrite !map_map in Hs.
  - apply (f_equal (map (λ x : Z * gset Z * Q, (x.1.1, x.2)))) in Hs.
    by rewrite !map_map in Hs.
Qed.

Lemma qdiv_self (n : Z) : 0 < n → (qdiv n n == 1)%Q.
Proof.
  intros Hn. unfold qdiv. apply Qmult_inv_r.
  unfold Qeq, inject_Z. simpl. lia.
Qed.

(** X5. Comparing a sample with itself: at every level both covered sets
    and the overlap coincide, and the coverage is 1 when some position is
    covered and 0 when none is. *)
Theorem calc_mm2overlap_self (covT : gmap Z (gmap Z Z)) (min_cov : Z)
    (l : level) :
  l ∈ levels covT covT min_cov →
  lv_T1 l = lv_T2 l ∧ coveredInBoth l = lv_T1 l ∧
  (coveredInBoth l ≠ ∅ → lv_cov l == 1)%Q ∧
  (coveredInBoth l = ∅ → lv_cov l == 0)%Q.
Proof.
  intros Hl. apply mm_loop_elem in Hl as (pre & post & _ & ->).
  set (c := cum_cov covT (pre ++ [lv_mm l]) ∅).
  unfold mk_level. simpl. set (T := covered min_cov c).
  assert (Hi : T ∩ T = T) by apply (idemp_L (∩)).
  assert (Hu : T ∪ T = T) by apply (idemp_L (∪)).
  rewrite Hi, Hu. split; [done|]. split; [done|].
  unfold overlap_cov. case_decide as Hpos.
  - split; [intros _; apply qdiv_self; lia|].
    intros He. rewrite He, size_empty in Hpos. lia.
  - split; [|done]. intros Hne. destruct Hne.
    apply leibniz_equiv, size_empty_iff. lia.
Qed.

Lemma calc_mm2overlap_self_witness :
  lv_T1 ex_self_level = lv_T2 ex_self_level ∧
  coveredInBoth ex_self_level = lv_T1 ex_self_level ∧
  (coveredInBoth ex_self_level ≠ ∅ → lv_cov ex_self_level == 1)%Q ∧
  (coveredInBoth ex_self_level = ∅ → lv_cov ex_self_level == 0)%Q.
Proof.
  apply (calc_mm2overlap_self ex_covT1 5 ex_self_level).
  vm_compute. right. left.
Defined.

(** ** The SNP caller: self-comparison, symmetry, the two-sided rule *)





Lemma call_pop_snps_both (r1 r2 : row) (j : joined) (model : Z → Z)
    (min_freq : Q) :
  side_1 j = Some r1 → side_2 j = Some r2 →
  conBase r1 ≠ bN → conBase r2 ≠ bN →
  baseCoverage r1 ≠ 0 → baseCoverage r2 ≠ 0 →
  ∃ c12 c21,
    count_of (conBase r1) r2 = Ok c12 ∧ count_of (conBase r2) r1 = Ok c21 ∧
    call_pop_snps j model min_freq
    = Ok (negb (bool_decide (conBase r1 = conBase r2))
          && negb (present c12 (baseCoverage r2) model min_freq)
          && negb (present c21 (baseCoverage r1) model min_freq)
          && negb (shared_minor r1 r2)).
Proof.
  intros H1 H2 Hn1 Hn2 Hd1 Hd2.
  assert (Hc12 : ∃ c, count_of (conBase r1) r2 = Ok c)
    by (destruct (conBase r1); simpl; eauto; done).
  assert (Hc21 : ∃ c, count_of (conBase r2) r1 = Ok c)
    by (destruct (conBase r2); simpl; eauto; done).
  destruct Hc12 as [c12 Hc12], Hc21 as [c21 Hc21].
  exists c12, c21. split; [done|]. split; [done|].
  unfold call_pop_snps. rewrite H1, H2.
  case_bool_decide; [done|]. simpl.
  unfold base_present. rewrite Hc12, Hc21. simpl.
  rewrite !is_present_eq by done.
  destruct (present c12 _ _ _); simpl; [done|].
  destruct (present c21 _ _ _); simpl; done.
Qed.

(** X7. When both samples have a variant row at the position, with
    consensus bases among A, C, T, G and non-zero depths, the classifier
    calls a population SNP iff the consensus bases differ, neither
    sample's consensus base is present in the other sample's counts, and
    the two samples do not share a minor allele. *)
Theorem call_pop_snps_two_sided (r1 r2 : row) (j : joined) (c12 c21 : Z)
    (model : Z → Z) (min_freq : Q) :
  side_1 j = Some r1 → side_2 j = Some r2 →
  count_of (conBase r1) r2 = Ok c12 → count_of (conBase r2) r1 = Ok c21 →
  baseCoverage r1 ≠ 0 → baseCoverage r2 ≠ 0 →
  call_pop_snps j model min_freq
  = Ok (negb (bool_decide (conBase r1 = conBase r2))
        && negb (present c12 (baseCoverage r2) model min_freq)
        && negb (present c21 (baseCoverage r1) model min_freq)
        && negb (shared_minor r1 r2)).
Proof.
  intros H1 H2 Hc12 Hc21 Hd1 Hd2.
  assert (Hn1 : conBase r1 ≠ bN) by (intros Hn; by rewrite Hn in Hc12).
  assert (Hn2 : conBase r2 ≠ bN) by (intros Hn; by rewrite Hn in Hc21).
  destruct (call_pop_snps_both r1 r2 j model min_freq H1 H2 Hn1 Hn2 Hd1 Hd2)
    as (c12' & c21' & Hc12' & Hc21' & ->).
  rewrite Hc12 in Hc12'. rewrite Hc21 in Hc21'.
  by injection Hc12' as <-; injection Hc21' as <-.
Qed.

Lemma call_pop_snps_two_sided_witness :
  call_pop_snps ex_two_sided ex_model ex_min_freq
  = Ok (negb (bool_decide (conBase ex_variant_G = conBase ex_variant))
        && negb (present 0 (baseCoverage ex_variant) ex_model ex_min_freq)
        && negb (present 0 (baseCoverage ex_variant_G) ex_model ex_min_freq)
        && negb (shared_minor ex_variant_G ex_variant)).
Proof.
  apply (call_pop_snps_two_sided ex_variant_G ex_variant ex_two_sided 0 0
           ex_model ex_min_freq); done.
Defined.

Lemma shared_minor_comm (r1 r2 : row) :
  shared_minor r1 r2 = shared_minor r2 r1.
Proof.
  unfold shared_minor.
  destruct (allele_count r1) as [a1|], (allele_count r2) as [a2|],
    (morphia r1) as [m1|], (morphia r2) as [m2|]; try done;
    repeat case_bool_decide; simpl; try done; congruence.
Qed.

(** X8. The population-SNP call does not depend on which sample is first,
    for rows whose sides, when both present, have consensus bases among
    A, C, T, G and non-zero depths. *)
Theorem call_pop_snps_symmetric (j : joined) (model : Z → Z) (min_freq : Q) :
  (∀ r1 r2, side_1 j = Some r1 → side_2 j = Some r2 →
     conBase r1 ≠ bN ∧ conBase r2 ≠ bN ∧
     baseCoverage r1 ≠ 0 ∧ baseCoverage r2 ≠ 0) →
  call_pop_snps (swap_sides j) model min_freq
  = call_pop_snps j model min_freq.
Proof.
  intros Hwf.
  destruct (side_1 j) as [r1|] eqn:H1, (side_2 j) as [r2|] eqn:H2.
  - destruct (Hwf r1 r2 eq_refl eq_refl) as (Hn1 & Hn2 & Hd1 & Hd2).
    destruct (call_pop_snps_both r1 r2 j model min_freq H1 H2 Hn1 Hn2 Hd1 Hd2)
      as (c12 & c21 & Hc12 & Hc21 & ->).
    assert (H1' : side_1 (swap_sides j) = Some r2) by done.
    assert (H2' : side_2 (swap_sides j) = Some r1) by done.
    destruct (call_pop_snps_both r2 r1 _ model min_freq H1' H2' Hn2 Hn1
                Hd2 Hd1) as (c21' & c12' & Hc21' & Hc12' & ->).
    rewrite Hc12 in Hc12'. rewrite Hc21 in Hc21'.
    injection Hc12' as <-. injection Hc21' as <-.
    rewrite (shared_minor_comm r2 r1). f_equal.
    destruct (decide (conBase r1 = conBase r2)) as [He|He].
    + rewrite !bool_decide_eq_true_2 by done. done.
    + rewrite !bool_decide_eq_false_2 by done. simpl.
      destruct (present c12 _ _ _), (present c21 _ _ _); done.
  - unfold call_pop_snps, swap_sides. simpl. by rewrite H1, H2.
  - unfold call_pop_snps, swap_sides. simpl. by rewrite H1, H2.
  - unfold call_pop_snps, swap_sides. simpl. by rewrite H1, H2.
Qed.

Lemma call_pop_snps_symmetric_witness :
  call_pop_snps (swap_sides ex_two_sided) ex_model ex_min_freq
  = call_pop_snps ex_two_sided ex_model ex_min_freq.
Proof.
  apply (call_pop_snps_symmetric ex_two_sided ex_model ex_min_freq).
  intros r1 r2 [= <-] [= <-]. done.
Defined.

(** ** Skipped scaffolds and the result of one scaffold *)

Lemma substring_whole (s : string) (m : nat) :
  (String.length s ≤ m)%nat → String.substring 0 m s = s.
Proof.
  revert m. induction s as [|c s IH]; intros m Hm.
  - by destruct m.
  - destruct m as [|m]; simpl in *; [lia|]. f_equal. apply IH. lia.
Qed.

Lemma is_skip_tag (s : string) : is_skip ("skip_" +:+ s) = true.
Proof. unfold is_skip. by apply bool_decide_eq_true_2. Qed.

Lemma after_skip_tag (s : string) : after_skip ("skip_" +:+ s) = s.
Proof.
  change (after_skip ("skip_" +:+ s))
    with (String.substring 0 (5 + String.length s) s).
  apply substring_whole. lia.
Qed.

Lemma load_samples_length name2SNVprofile scaffold names sProfiles samples :
  load_samples name2SNVprofile scaffold names sProfiles = Ok samples →
  List.length samples
  = List.length (filter (λ p : SNVprofile * string,
                           is_Some (covT p.1 !! scaffold))
                   (zip sProfiles names)).
Proof.
  unfold load_samples.
  destruct (rmapM _ (zip sProfiles names)) as [loaded|e] eqn:Hl; simpl;
    [|discriminate].
  intros [= <-]. apply rmapM_Ok in Hl.
  induction Hl as [|[IS name] o l os Ho _ IH]; [done|].
  rewrite filter_cons. simpl. unfold load_sample in Ho.
  destruct (covT IS !! scaffold) as [c|] eqn:Hc.
  - rewrite decide_True by eauto.
    destruct (_get_SNP_table _ _ _ _) as [db|e]; simpl in Ho; [|discriminate].
    injection Ho as <-. simpl. f_equal. exact IH.
  - rewrite decide_False by (by intros [? ?]).
    injection Ho as <-. simpl. exact IH.
Qed.

Lemma get_SNP_table_total (g : gmap string (list row)) (o : option (gmap string (list row)))
    IS scaffold name :
  (o = None ∨ (o = Some g ∧ is_Some (g !! name))) →
  ∃ db, _get_SNP_table o IS scaffold name = Ok db.
Proof.
  unfold _get_SNP_table. intros [->|[-> [db Hdb]]]; [|rewrite Hdb]; simpl;
    repeat case_decide; eauto.
Qed.

Lemma load_samples_total name2SNVprofile scaffold names sProfiles :
  (∀ g name, name2SNVprofile = Some g → name ∈ names → is_Some (g !! name)) →
  ∃ samples, load_samples name2SNVprofile scaffold names sProfiles = Ok samples.
Proof.
  intros Hg. unfold load_samples.
  assert (Hall : ∃ loaded,
    rmapM (λ '((IS, name) : SNVprofile * string),
             load_sample name2SNVprofile scaffold IS name)
          (zip sProfiles names) = Ok loaded).
  { revert names Hg. induction sProfiles as [|IS l IH]; intros names Hg;
      [by eexists|].
    destruct names as [|name names]; [by eexists|]. simpl.
    assert (Hone : ∃ o, load_sample name2SNVprofile scaffold IS name = Ok o).
    { unfold load_sample. destruct (covT IS !! scaffold); [|by eexists].
      assert (Hdb : ∃ db, _get_SNP_table name2SNVprofile IS scaffold name
                          = Ok db).
      { destruct name2SNVprofile as [g0|].
        - apply (get_SNP_table_total g0). right. split; [done|].
          apply (Hg g0); [done|left].
        - apply (get_SNP_table_total ∅). by left. }
      destruct Hdb as [db ->]. by eexists. }
    destruct Hone as [o ->]. simpl.
    destruct (IH names) as [loaded ->]; [|by eexists].
    intros g n Hs Hn. apply (Hg g); [done|by right]. }
  destruct Hall as [loaded ->]. simpl. by eexists.
Qed.

Lemma compare_scaffold_skipped gen name2SNVprofile scaffold names sProfiles
    mLen kwargs :
  (∀ g name, name2SNVprofile = Some g → name ∈ names → is_Some (g !! name)) →
  (List.length (filter (λ p : SNVprofile * string,
                          is_Some (covT p.1 !! scaffold))
                  (zip sProfiles names)) < 2)%nat →
  compare_scaffold gen name2SNVprofile scaffold names sProfiles mLen kwargs
  = Ok (Profile [] [] ∅ ("skip_" +:+ scaffold)).
Proof.
  intros Hg Hlt. unfold compare_scaffold.
  destruct (load_samples_total name2SNVprofile scaffold names sProfiles Hg)
    as [samples Hs].
  rewrite Hs. simpl.
  apply load_samples_length in Hs. rewrite <- Hs in Hlt.
  by rewrite decide_True.
Qed.

(** X9. A scaffold for which fewer than two of the samples have coverage
    is not compared: [compare_scaffold] returns empty tables under the tag
    "skip_" followed by the scaffold's name (provided the module-level
    table lookup, when it is set, knows every sample name). *)
Theorem compare_scaffold_skip gen name2SNVprofile scaffold names sProfiles
    mLen kwargs :
  (∀ g name, name2SNVprofile = Some g → name ∈ names → is_Some (g !! name)) →
  (List.length (filter (λ p : SNVprofile * string,
                          is_Some (covT p.1 !! scaffold))
                  (zip sProfiles names)) < 2)%nat →
  compare_scaffold gen name2SNVprofile scaffold names sProfiles mLen kwargs
  = Ok (Profile [] [] ∅ ("skip_" +:+ scaffold)).
Proof. apply compare_scaffold_skipped. Qed.

Lemma compare_scaffold_skip_witness :
  compare_scaffold ex_generate_snp_model None "chr9" ["A.bam"; "B.bam"]
    [ex_profile_A; ex_profile_B] 5 no_kwargs
  = Ok (Profile [] [] ∅ ("skip_" +:+ "chr9")).
Proof.
  apply (compare_scaffold_skip ex_generate_snp_model None "chr9"
           ["A.bam"; "B.bam"] [ex_profile_A; ex_profile_B] 5 no_kwargs).
  - intros g name [=].
  - vm_compute. lia.
Defined.

Lemma compare_scaffold_shape gen name2SNVprofile scaffold names sProfiles
    mLen kwargs s :
  compare_scaffold gen name2SNVprofile scaffold names sProfiles mLen kwargs
  = Ok s →
  s = Profile [] [] ∅ ("skip_" +:+ scaffold) ∨
  ∃ Cdb Mdb cov, s = Profile Cdb Mdb cov scaffold.
Proof.
  unfold compare_scaffold.
  destruct (load_samples _ _ _ _) as [samples|e]; simpl; [|discriminate].
  case_decide.
  - intros [= <-]. by left.
  - destruct (run_pairs _ _ _) as [st|e]; simpl; [|discriminate].
    intros [= <-]. right. eauto.
Qed.

(** ** The scheduler: commands, the failed set, the rows of a run *)

Lemma rmapM_elem {A B} (f : A → result B) (l : list A) (bs : list B) a :
  rmapM f l = Ok bs → a ∈ l → ∃ b, b ∈ bs ∧ f a = Ok b.
Proof.
  intros Hl. apply rmapM_Ok in Hl.
  induction Hl as [|a0 b0 l bs Hab _ IH]; [inversion 1|].
  rewrite elem_of_cons. intros [->|Ha].
  - exists b0. split; [left|done].
  - destruct (IH Ha) as (b & ? & ?). exists b. split; [by right|done].
Qed.

Lemma rmapM_elem_r {A B} (f : A → result B) (l : list A) (bs : list B) b :
  rmapM f l = Ok bs → b ∈ bs → ∃ a, a ∈ l ∧ f a = Ok b.
Proof.
  intros Hl. apply rmapM_Ok in Hl.
  induction Hl as [|a0 b0 l bs Hab _ IH]; [inversion 1|].
  rewrite elem_of_cons. intros [->|Hb].
  - exists a0. split; [left|done].
  - destruct (IH Hb) as (a & ? & ?). exists a. split; [by right|done].
Qed.

Lemma iterate_commands_spec names sProfiles (s2l : gmap string Z)
    scaffolds kwargs cmds :
  iterate_commands names sProfiles s2l scaffolds kwargs = Ok cmds →
  map cmd_scaffold cmds = scaffolds ∧
  Forall (λ c, s2l !! cmd_scaffold c = Some (cmd_mLen c) ∧
               cmd_names c = names ∧ cmd_sProfiles c = sProfiles ∧
               cmd_arguments c = kwargs) cmds.
Proof.
  unfold iterate_commands. intros H. apply rmapM_Ok in H.
  induction H as [|s c l cs Hc _ [IH1 IH2]]; [split; [done|constructor]|].
  destruct (s2l !! s) as [len|] eqn:Hs; [|discriminate].
  injection Hc as <-. simpl. split; [by rewrite IH1|].
  constructor; [|done]. simpl. done.
Qed.




Lemma wrapper_shape gen name2SNVprofile (c : cmd) :
  scaffold_profile_wrapper gen name2SNVprofile c = FailedMarker ∨
  scaffold_profile_wrapper gen name2SNVprofile c
    = Profile [] [] ∅ ("skip_" +:+ cmd_scaffold c) ∨
  ∃ Cdb Mdb cov,
    scaffold_profile_wrapper gen name2SNVprofile c
      = Profile Cdb Mdb cov (cmd_scaffold c) ∧
    Forall (row_facts (cmd_scaffold c) (cmd_mLen c)) Cdb.
Proof.
  unfold scaffold_profile_wrapper.
  destruct (compare_scaffold _ _ _ _ _ _ _) as [s|e] eqn:Hs; [|by left].
  right. destruct (compare_scaffold_shape _ _ _ _ _ _ _ _ Hs)
    as [->|(Cdb & Mdb & cov & ->)]; [by left|].
  right. exists Cdb, Mdb, cov. split; [done|].
  by eapply compare_scaffold_row_facts.
Qed.

Lemma first_pass_elem gen name2SNVprofile future_raises p cmds s :
  s ∈ first_pass gen name2SNVprofile future_raises p cmds →
  ∃ c, c ∈ cmds ∧ s = scaffold_profile_wrapper gen name2SNVprofile c.
Proof.
  unfold first_pass. case_bool_decide.
  - rewrite list_elem_of_omap. intros (c & Hc & Hs).
    destruct (future_raises ProcessPool (cmd_scaffold c)); [done|].
    injection Hs as <-. eauto.
  - rewrite list_elem_of_fmap. intros (c & -> & Hc). eauto.
Qed.

Lemma first_pass_alive gen name2SNVprofile future_raises p cmds c :
  c ∈ cmds →
  ¬ (1 < p ∧ future_raises ProcessPool (cmd_scaffold c) = true) →
  scaffold_profile_wrapper gen name2SNVprofile c
    ∈ first_pass gen name2SNVprofile future_raises p cmds.
Proof.
  intros Hc Hn. unfold first_pass. case_bool_decide as Hp.
  - apply list_elem_of_omap. exists c. split; [done|].
    destruct (future_raises ProcessPool (cmd_scaffold c)); [|done].
    destruct Hn. done.
  - apply list_elem_of_fmap. eauto.
Qed.

Lemma failed_scaffs_dead gen name2SNVprofile future_raises names sProfiles
    (s2l : gmap string Z) scaffolds kwargs p cmds tags s :
  iterate_commands names sProfiles s2l scaffolds kwargs = Ok cmds →
  rmapM item3 (first_pass gen name2SNVprofile future_raises p cmds)
  = Ok tags →
  s ∈ failed_scaffs_of scaffolds tags
        (map after_skip (filter (λ t, is_skip t = true) tags)) →
  s ∈ scaffolds ∧ 1 < p ∧ future_raises ProcessPool s = true.
Proof.
  intros Hcmds Htags Hs. unfold failed_scaffs_of in Hs.
  apply elem_of_remove_dups, list_elem_of_filter in Hs as [[Hnt Hns] Hin].
  split; [done|].
  apply iterate_commands_spec in Hcmds as [Hmap _].
  rewrite <- Hmap in Hin. apply list_elem_of_fmap in Hin as (c & -> & Hc).
  destruct (decide (1 < p ∧ future_raises ProcessPool (cmd_scaffold c) = true))
    as [?|Hn]; [done|].
  exfalso.
  pose proof (first_pass_alive gen name2SNVprofile future_raises p cmds c
                Hc Hn) as Hw.
  destruct (rmapM_elem _ _ _ _ Htags Hw) as (t & Ht & Hit).
  destruct (wrapper_shape gen name2SNVprofile c)
    as [Hm|[Hk|(Cdb & Mdb & cov & Hk & _)]]; rewrite Hk in Hit || rewrite Hm in Hit;
    simpl in Hit; try discriminate; injection Hit as <-.
  - apply Hns. apply list_elem_of_fmap.
    exists ("skip_" +:+ cmd_scaffold c). split; [by rewrite after_skip_tag|].
    apply list_elem_of_filter. split; [apply is_skip_tag|done].
  - by apply Hnt.
Qed.

(** X11. The failed set holds only requested scaffolds whose task was sent
    to the process pool and whose future raised there: a scaffold whose
    comparison returned, skipped or not, is never retried, and on a single
    process the failed set is empty. *)
Theorem failed_scaffs_only_dead_workers gen name2SNVprofile future_raises
    names sProfiles (s2l : gmap string Z) scaffolds kwargs p cmds tags s :
  iterate_commands names sProfiles s2l scaffolds kwargs = Ok cmds →
  rmapM item3 (first_pass gen name2SNVprofile future_raises p cmds)
  = Ok tags →
  s ∈ failed_scaffs_of scaffolds tags
        (map after_skip (filter (λ t, is_skip t = true) tags)) →
  s ∈ scaffolds ∧ 1 < p ∧ future_raises ProcessPool s = true.
Proof. apply failed_scaffs_dead. Qed.

Lemma failed_scaffs_only_dead_workers_witness :
  "chr1" ∈ ["chr1"] ∧ 1 < 6 ∧ ex_chr1_dies ProcessPool "chr1" = true.
Proof.
  apply (failed_scaffs_only_dead_workers ex_generate_snp_model None
           ex_chr1_dies ["A.bam"; "B.bam"] [ex_profile_A2; ex_profile_B2]
           ex_s2l ["chr1"] no_kwargs 6 [ex_cmd "chr1" 5] [] "chr1").
  - reflexivity.
  - reflexivity.
  - vm_compute. left.
Defined.

Lemma retry_pass_elem gen name2SNVprofile future_raises p cmds retried s :
  retry_pass gen name2SNVprofile future_raises p cmds = Ok retried →
  s ∈ retried →
  ∃ c, c ∈ cmds ∧ s = scaffold_profile_wrapper gen name2SNVprofile c.
Proof.
  unfold retry_pass. case_bool_decide; [discriminate|].
  intros Hr Hs. destruct (rmapM_elem_r _ _ _ _ Hr Hs) as (c & Hc & Hf).
  destruct (future_raises ThreadPool (cmd_scaffold c)); [discriminate|].
  injection Hf as <-. eauto.
Qed.

Lemma elem_of_concat {A} (x : A) (ls : list (list A)) :
  x ∈ concat ls ↔ ∃ l, x ∈ l ∧ l ∈ ls.
Proof.
  induction ls as [|l0 ls IH]; simpl.
  - split; [inversion 1|]. intros (l & _ & Hl). inversion Hl.
  - rewrite elem_of_app, IH. split.
    + intros [Hx|(l & Hx & Hl)].
      * exists l0. split; [done|left].
      * exists l. split; [done|by right].
    + intros (l & Hx & Hl). apply elem_of_cons in Hl as [->|Hl];
        [by left|right; eauto].
Qed.

Lemma usable_profile Cdb Mdb cov tag :
  usable (Profile Cdb Mdb cov tag)
  = if is_skip tag then None else Some (Cdb, Mdb, cov, tag).
Proof. reflexivity. Qed.

Lemma kept_rows_facts gen name2SNVprofile (s2l : gmap string Z)
    (scaffolds : list string) (profiles : list ScaffProfile) :
  (∀ s, s ∈ profiles →
     ∃ c, cmd_scaffold c ∈ scaffolds ∧
          s2l !! cmd_scaffold c = Some (cmd_mLen c) ∧
          s = scaffold_profile_wrapper gen name2SNVprofile c) →
  Forall (λ r, Cmp.scaffold r ∈ scaffolds ∧
               s2l !! Cmp.scaffold r = Some (Cmp.length r) ∧
               row_facts (Cmp.scaffold r) (Cmp.length r) r)
    (concat (map (λ k, k.1.1.1) (omap usable profiles))).
Proof.
  intros Hall. apply Forall_forall. intros r Hr.
  apply elem_of_concat in Hr as (Cdb & Hr & HCdb).
  apply list_elem_of_fmap in HCdb as (k & -> & Hk).
  apply list_elem_of_omap in Hk as (s & Hs & Hu).
  destruct (Hall s Hs) as (c & Hc & Hlen & ->).
  destruct (wrapper_shape gen name2SNVprofile c)
    as [Hm|[Hm|(Cdb & Mdb & cov & Hm & Hfacts)]]; rewrite Hm in Hu.
  - done.
  - rewrite usable_profile in Hu. by rewrite is_skip_tag in Hu.
  - rewrite usable_profile in Hu.
    destruct (is_skip (cmd_scaffold c)); [done|].
    injection Hu as <-. simpl in Hr.
    rewrite Forall_forall in Hfacts. specialize (Hfacts r Hr).
    pose proof Hfacts as (_ & Hsc & Hl & _). rewrite Hsc, Hl. done.
Qed.

Lemma compare_scaffolds_row_facts gen name2SNVprofile future_raises names
    Sprofiles scaffolds_to_compare (s2l : gmap string Z) kwargs
    Cdb Mdb scaff2pair2mm2cov :
  compare_scaffolds gen name2SNVprofile future_raises names Sprofiles
    scaffolds_to_compare s2l kwargs = Ok (Cdb, Mdb, scaff2pair2mm2cov) →
  Forall (λ r, Cmp.scaffold r ∈ scaffolds_to_compare ∧
               s2l !! Cmp.scaffold r = Some (Cmp.length r) ∧
               row_facts (Cmp.scaffold r) (Cmp.length r) r) Cdb.
Proof.
  unfold compare_scaffolds.
  set (p := default 6 (kw_processes kwargs)).
  destruct (iterate_commands names Sprofiles s2l scaffolds_to_compare kwargs)
    as [cmds|e] eqn:Hcmds; simpl; [|discriminate].
  destruct (rmapM item3 _) as [tags|e] eqn:Htags; simpl; [|discriminate].
  set (failed := failed_scaffs_of _ _ _).
  assert (Hfirst : ∀ s,
    s ∈ first_pass gen name2SNVprofile future_raises p cmds →
    ∃ c, cmd_scaffold c ∈ scaffolds_to_compare ∧
         s2l !! cmd_scaffold c = Some (cmd_mLen c) ∧
         s = scaffold_profile_wrapper gen name2SNVprofile c).
  { intros s Hs. apply first_pass_elem in Hs as (c & Hc & ->).
    apply iterate_commands_spec in Hcmds as [Hmap Hall].
    rewrite Forall_forall in Hall. destruct (Hall c Hc) as (Hl & _).
    exists c. split; [|done]. rewrite <- Hmap.
    apply list_elem_of_fmap. eauto. }
  case_decide as Hfail.
  - destruct (iterate_commands names Sprofiles s2l failed kwargs)
      as [cmds'|e] eqn:Hcmds'; simpl; [|discriminate].
    destruct (retry_pass _ _ _ p cmds') as [retried|e] eqn:Hretry; simpl;
      [|discriminate].
    case_decide; [discriminate|]. intros [= <- _ _].
    apply (kept_rows_facts gen name2SNVprofile).
    intros s Hs. apply elem_of_app in Hs as [Hs|Hs]; [by apply Hfirst|].
    destruct (retry_pass_elem _ _ _ _ _ _ _ Hretry Hs) as (c & Hc & ->).
    apply iterate_commands_spec in Hcmds' as [Hmap Hall].
    rewrite Forall_forall in Hall. destruct (Hall c Hc) as (Hl & _).
    exists c. split; [|done].
    assert (Hin : cmd_scaffold c ∈ failed)
      by (rewrite <- Hmap; apply list_elem_of_fmap; eauto).
    unfold failed, failed_scaffs_of in Hin.
    by apply elem_of_remove_dups, list_elem_of_filter in Hin as [_ ?].
  - simpl. case_decide; [discriminate|]. intros [= <- _ _].
    by apply (kept_rows_facts gen name2SNVprofile).
Qed.


(** X12. Every row of the table a run of [compare_scaffolds] returns
    belongs to a requested scaffold, carries that scaffold's length from
    the length table, which is not zero, and has its counts ordered
    0 ≤ population SNPs ≤ consensus SNPs ≤ compared bases. *)
Theorem compare_scaffolds_rows gen name2SNVprofile future_raises names
    Sprofiles scaffolds_to_compare (s2l : gmap string Z) kwargs
    Cdb Mdb scaff2pair2mm2cov :
  compare_scaffolds gen name2SNVprofile future_raises names Sprofiles
    scaffolds_to_compare s2l kwargs = Ok (Cdb, Mdb, scaff2pair2mm2cov) →
  Forall (λ r,
    Cmp.scaffold r ∈ scaffolds_to_compare ∧
    s2l !! Cmp.scaffold r = Some (Cmp.length r) ∧ Cmp.length r ≠ 0 ∧
    0 ≤ Cmp.population_SNPs r ≤ Cmp.consensus_SNPs r ∧
    Cmp.consensus_SNPs r ≤ Cmp.compared_bases_count r) Cdb.
Proof.
  intros H. eapply Forall_impl; [by eapply compare_scaffolds_row_facts|].
  intros r (? & ? & _ & _ & _ & ? & ? & ? & _). done.
Qed.

Lemma compare_scaffolds_rows_witness :
  Forall (λ r,
    Cmp.scaffold r ∈ ["chr1"] ∧
    ex_s2l !! Cmp.scaffold r = Some (Cmp.length r) ∧ Cmp.length r ≠ 0 ∧
    0 ≤ Cmp.population_SNPs r ≤ Cmp.consensus_SNPs r ∧
    Cmp.consensus_SNPs r ≤ Cmp.compared_bases_count r) ex_Cdb_chr1.
Proof.
  apply (compare_scaffolds_rows ex_generate_snp_model None ex_chr1_dies
           ["A.bam"; "B.bam"] [ex_profile_A2; ex_profile_B2] ["chr1"]
           ex_s2l no_kwargs ex_Cdb_chr1 [] {[ "chr1" := ∅ ]}).
  vm_compute. reflexivity.
Defined.








(** ** Genome aggregation: bounds *)

Lemma qdiv_unit_interval_nonneg (a b : Z) :
  0 ≤ a → 0 < b → (0 <= qdiv a b)%Q.
Proof.
  intros Ha Hb. unfold qdiv.
  destruct b as [|pb|pb]; try lia.
  unfold Qdiv, Qinv, Qmult, Qle, inject_Z. simpl. lia.
Qed.

Lemma weighted_bounds (r : Cmp.row) :
  0 ≤ Cmp.compared_bases_count r →
  (∀ a, Cmp.popANI r = Some a → (0 <= a)%Q ∧ (a <= 1)%Q) →
  (0 <= weighted r)%Q ∧
  (weighted r <= inject_Z (Cmp.compared_bases_count r))%Q.
Proof.
  intros Hc Ha. unfold weighted.
  assert (Hc' : (0 <= inject_Z (Cmp.compared_bases_count r))%Q).
  { unfold Qle, inject_Z. simpl. lia. }
  destruct (Cmp.popANI r) as [a|]; [|split; [apply Qle_refl|done]].
  destruct (Ha a eq_refl) as [H0 H1]. split.
  - by apply Qmult_le_0_compat.
  - rewrite <- (Qmult_1_l (inject_Z (Cmp.compared_bases_count r))) at 2.
    by apply Qmult_le_compat_r.
Qed.

Lemma sums_bounds (l : list Cmp.row) (acc : Q) (n : Z) :
  Forall (λ r, 0 ≤ Cmp.compared_bases_count r ∧
               ∀ a, Cmp.popANI r = Some a → (0 <= a)%Q ∧ (a <= 1)%Q) l →
  (0 <= acc)%Q → (acc <= inject_Z n)%Q → 0 ≤ n →
  (0 <= foldl Qplus acc (map weighted l))%Q ∧
  (foldl Qplus acc (map weighted l)
   <= inject_Z (foldl Z.add n (map Cmp.compared_bases_count l)))%Q ∧
  n ≤ foldl Z.add n (map Cmp.compared_bases_count l).
Proof.
  intros Hall. revert acc n.
  induction Hall as [|r l [Hc Ha] _ IH]; intros acc n H0 H1 Hn; simpl.
  - repeat split; try done; lia.
  - destruct (weighted_bounds r Hc Ha) as [Hw0 Hw1].
    destruct (IH (acc + weighted r)%Q (n + Cmp.compared_bases_count r))
      as (? & ? & ?).
    + rewrite <- (Qplus_0_l 0). by apply Qplus_le_compat.
    + rewrite inject_Z_plus. by apply Qplus_le_compat.
    + lia.
    + repeat split; try done; lia.
Qed.

Lemma calc_cov_ani_unit (Cdb : list Cmp.row) (BIN_LENGTH : Z)
    (kwargs : Kwargs) :
  0 < BIN_LENGTH →
  Forall (λ r, 0 ≤ Cmp.compared_bases_count r ∧
               ∀ a, Cmp.popANI r = Some a → (0 <= a)%Q ∧ (a <= 1)%Q) Cdb →
  ∃ popANI cov,
    calc_cov_ani Cdb BIN_LENGTH kwargs = Ok (popANI, cov) ∧
    (0 <= cov)%Q ∧
    ∀ a, popANI = Some a → (0 <= a)%Q ∧ (a <= 1)%Q.
Proof.
  intros Hlen Hall. unfold calc_cov_ani.
  rewrite bool_decide_eq_false_2 by lia.
  set (kept := kept_rows Cdb (default 100 (kw_g_mm kwargs))).
  assert (Hkept : Forall (λ r, 0 ≤ Cmp.compared_bases_count r ∧
               ∀ a, Cmp.popANI r = Some a → (0 <= a)%Q ∧ (a <= 1)%Q) kept).
  { rewrite Forall_forall in *. intros r Hr. apply Hall.
    unfold kept, kept_rows in Hr. apply drop_duplicates_last_elem in Hr.
    by apply sort_values_elem, list_elem_of_filter in Hr as [_ ?]. }
  destruct (sums_bounds kept 0%Q 0 Hkept) as (Hs0 & Hs1 & Hn);
    [apply Qle_refl|apply Qle_refl|lia|].
  fold (Qsum (map weighted kept)) in Hs0, Hs1.
  fold (Zsum (map Cmp.compared_bases_count kept)) in Hs1, Hn.
  set (tcb := Zsum (map Cmp.compared_bases_count kept)) in *.
  eexists _, _. split; [reflexivity|]. split.
  - apply qdiv_unit_interval_nonneg; lia.
  - intros a. case_bool_decide as Ht; [discriminate|]. intros [= <-].
    assert (Hpos : (0 < inject_Z tcb)%Q).
    { unfold Qlt, inject_Z. simpl. lia. }
    split.
    + apply Qle_shift_div_l; [done|]. by rewrite Qmult_0_l.
    + apply Qle_shift_div_r; [done|]. by rewrite Qmult_1_l.
Qed.

(** X15. When every row of the table has a compared-base count that is not
    negative and a popANI, if defined, within [0,1], and the genome length
    is positive, the aggregation returns a coverage that is not negative
    and a popANI that is NaN or within [0,1]. *)
Theorem calc_cov_ani_bounds (Cdb : list Cmp.row) (BIN_LENGTH : Z)
    (kwargs : Kwargs) :
  0 < BIN_LENGTH →
  Forall (λ r, 0 ≤ Cmp.compared_bases_count r ∧
               ∀ a, Cmp.popANI r = Some a → (0 <= a)%Q ∧ (a <= 1)%Q) Cdb →
  ∃ popANI cov,
    calc_cov_ani Cdb BIN_LENGTH kwargs = Ok (popANI, cov) ∧
    (0 <= cov)%Q ∧
    ∀ a, popANI = Some a → (0 <= a)%Q ∧ (a <= 1)%Q.
Proof. apply calc_cov_ani_unit. Qed.

Lemma calc_cov_ani_bounds_witness :
  ∃ popANI cov,
    calc_cov_ani ex_Cdb 1000 no_kwargs = Ok (popANI, cov) ∧
    (0 <= cov)%Q ∧
    ∀ a, popANI = Some a → (0 <= a)%Q ∧ (a <= 1)%Q.
Proof.
  apply (calc_cov_ani_bounds ex_Cdb 1000 no_kwargs); [lia|].
  rewrite Forall_forall. intros r Hr. unfold ex_Cdb in Hr.
  apply elem_of_cons in Hr as [->|Hr];
    [|apply list_elem_of_singleton in Hr as ->];
    (split; [simpl; lia|]; intros a [= <-]; split; unfold Qle; simpl; lia).
Defined.

(** X16. The comparison of two samples over a genome of positive length,
    when it returns, gives a coverage that is not negative and a genome
    popANI that is NaN or within [0,1]. *)
Theorem compare_Sprofiles_bounds gen future_raises name2SNVprofile IS1 cIS
    names scaffolds_to_compare (s2l : gmap string Z) BIN_LENGTH kwargs
    Cdb ANI cov :
  0 < BIN_LENGTH →
  compare_Sprofiles gen future_raises name2SNVprofile IS1 cIS names
    scaffolds_to_compare s2l BIN_LENGTH kwargs = Ok (Cdb, ANI, cov) →
  (0 <= cov)%Q ∧ ∀ a, ANI = Some a → (0 <= a)%Q ∧ (a <= 1)%Q.
Proof.
  intros Hlen. unfold compare_Sprofiles.
  destruct (compare_scaffolds _ _ _ _ _ _ _ _) as [[[Cdb' Mdb] sc]|e] eqn:Hrun;
    simpl; [|discriminate].
  apply compare_scaffolds_row_facts in Hrun.
  destruct (calc_cov_ani_unit Cdb' BIN_LENGTH kwargs Hlen)
    as (popANI & cov' & -> & Hcov & Hani).
  { eapply Forall_impl; [exact Hrun|].
    intros r (_ & _ & Hs & _). destruct Hs as (Hpos & Hzero & Hb).
    split; [done|]. intros a Ha.
    destruct (decide (Cmp.compared_bases_count r = 0)) as [Hz|Hnz].
    - destruct (Hzero Hz) as [_ Hn]. by rewrite Hn in Ha.
    - destruct Hpos as (_ & Hp & _ & _ & ? & ?); [lia|].
      rewrite Hp in Ha. by injection Ha as <-. }
  simpl. intros [= <- <- <-]. done.
Qed.

Lemma compare_Sprofiles_bounds_witness :
  (0 <= 3 # 5)%Q ∧ ∀ a, Some (6 # 9)%Q = Some a → (0 <= a)%Q ∧ (a <= 1)%Q.
Proof.
  apply (compare_Sprofiles_bounds ex_generate_snp_model ex_no_fault None
           ex_profile_A2 ex_profile_B2 ["A.bam"; "B.bam"] ["chr1"] ex_s2l 5
           no_kwargs ex_Cdb_chr1 (Some (6 # 9)%Q) (3 # 5)%Q); [lia|].
  vm_compute. reflexivity.
Defined.

(** ** The variant table of a scaffold *)

Lemma get_SNP_table_rows o IS scaffold name db :
  _get_SNP_table o IS scaffold name = Ok db →
  StronglySorted (key_le mm) db ∧
  db ≡ₚ filter (λ r, SNV.scaffold r = scaffold)
          (match o with
           | Some g => default [] (g !! name)
           | None => cumulative_snv_table IS
           end).
Proof.
  unfold _get_SNP_table.
  set (src := match o with
              | Some g => default [] (g !! name)
              | None => cumulative_snv_table IS
              end).
  assert (Hsrc : (match o with
                  | Some g => match g !! name with
                              | Some db => Ok db
                              | None => Raise KeyError
                              end
                  | None => Ok (cumulative_snv_table IS)
                  end) = Ok src ∨
                 (match o with
                  | Some g => match g !! name with
                              | Some db => Ok db
                              | None => Raise KeyError
                              end
                  | None => Ok (cumulative_snv_table IS)
                  end) = Raise KeyError).
  { unfold src. destruct o as [g|]; [|by left].
    destruct (g !! name); [by left|by right]. }
  destruct Hsrc as [->| ->]; simpl; [|discriminate].
  case_decide as Hlen.
  - case_decide as Hlen'.
    + intros [= <-]. split; [constructor|].
      by apply nil_length_inv in Hlen' as ->.
    + intros [= <-]. split; [apply sort_values_sorted|].
      unfold sort_values. apply merge_sort_Permutation.
  - intros [= <-]. split; [constructor|].
    destruct src; [done|simpl in Hlen; lia].
Qed.

(** X17. When [_get_SNP_table] returns, its rows are exactly the rows of
    the sample's table (the module-level one when it is set) that belong
    to the scaffold, in ascending order of mismatch level. It raises
    [KeyError] iff the module-level dict is set and lacks the sample. *)
Theorem get_SNP_table_spec (o : option (gmap string (list row)))
    (IS : SNVprofile) (scaffold name : string) :
  (∀ db, _get_SNP_table o IS scaffold name = Ok db →
     StronglySorted (key_le mm) db ∧
     db ≡ₚ filter (λ r, SNV.scaffold r = scaffold)
             (match o with
              | Some g => default [] (g !! name)
              | None => cumulative_snv_table IS
              end)) ∧
  (∀ e, _get_SNP_table o IS scaffold name = Raise e →
     e = KeyError ∧ ∃ g, o = Some g ∧ g !! name = None) ∧
  (∀ g, o = Some g → g !! name = None →
     _get_SNP_table o IS scaffold name = Raise KeyError).
Proof.
  split; [intros db; apply get_SNP_table_rows|]. split.
  - intros e. unfold _get_SNP_table.
    destruct o as [g|]; simpl.
    + destruct (g !! name) eqn:Hg; simpl.
      * repeat case_decide; discriminate.
      * intros [= <-]. eauto.
    + repeat case_decide; discriminate.
  - intros g -> Hg. unfold _get_SNP_table. by rewrite Hg.
Qed.

(** X18. The rows the SNP caller takes from a table loaded by
    [_get_SNP_table] are rows of the requested scaffold at positions of
    the overlap set, one per position, each with the highest mismatch
    level that the scaffold's table has at its position. *)
Theorem s_all_of_loaded_table (o : option (gmap string (list row)))
    (IS : SNVprofile) (scaffold name : string) (db : list row)
    (covs : gset Z) :
  _get_SNP_table o IS scaffold name = Ok db →
  NoDup (map position (s_all db covs)) ∧
  ∀ r, r ∈ s_all db covs →
    SNV.scaffold r = scaffold ∧ position r ∈ covs ∧
    ∀ r', r' ∈ db → position r' = position r → mm r' ≤ mm r.
Proof.
  intros Hdb. apply get_SNP_table_rows in Hdb as [Hs Hp]. split.
  - unfold s_all. case_decide; [|constructor].
    apply drop_duplicates_last_NoDup.
  - intros r Hr. destruct (s_all_spec db covs r Hs Hr) as (Hin & Hc & Hmax).
    split; [|done]. rewrite Hp in Hin.
    by apply list_elem_of_filter in Hin as [? _].
Qed.

Lemma s_all_of_loaded_table_witness :
  NoDup (map position (s_all ex_table_two_levels {[2; 3; 4]})) ∧
  ∀ r, r ∈ s_all ex_table_two_levels {[2; 3; 4]} →
    SNV.scaffold r = "chr1" ∧ position r ∈ ({[2; 3; 4]} : gset Z) ∧
    ∀ r', r' ∈ ex_table_two_levels → position r' = position r →
          mm r' ≤ mm r.
Proof.
  apply (s_all_of_loaded_table None ex_profile_two_levels "chr1" "B.bam"
           ex_table_two_levels {[2; 3; 4]}).
  vm_compute. reflexivity.
Defined.

(** ** The pairs of samples that are compared *)

Lemma enumerate_from_cons {A} (k : Z) (a : A) (l : list A) :
  enumerate_from k (a :: l) = (k, a) :: enumerate_from (k + 1) l.
Proof.
  unfold enumerate_from. rewrite imap_cons. simpl. f_equal.
  apply imap_ext. intros i x _. simpl. f_equal. lia.
Qed.

Lemma enumerate_from_index {A} (k : Z) (l : list A) :
  Forall (λ x, k ≤ x.1) (enumerate_from k l).
Proof.
  revert k. induction l as [|a l IH]; intros k; [constructor|].
  rewrite enumerate_from_cons. constructor; [simpl; lia|].
  eapply Forall_impl; [apply IH|]. simpl. intros x ?. lia.
Qed.

Lemma omap_ext_Forall {A B} (f g : A → option B) (l : list A) :
  Forall (λ x, f x = g x) l → omap f l = omap g l.
Proof.
  induction 1 as [|x l Hx _ IH]; [done|].
  change (omap f (x :: l))
    with (match f x with Some y => y :: omap f l | None => omap f l end).
  change (omap g (x :: l))
    with (match g x with Some y => y :: omap g l | None => omap g l end).
  by rewrite Hx, IH.
Qed.

Lemma omap_Some_map {A B} (f : A → B) (l : list A) :
  omap (λ x, Some (f x)) l = map f l.
Proof.
  induction l as [|x l IH]; [done|].
  change (omap (λ x, Some (f x)) (x :: l))
    with (f x :: omap (λ x, Some (f x)) l).
  by rewrite IH.
Qed.

Lemma enumerate_from_snd {A} (k : Z) (l : list A) :
  map snd (enumerate_from k l) = l.
Proof.
  revert k. induction l as [|x l IH]; intros k; [done|].
  rewrite enumerate_from_cons. simpl. by rewrite IH.
Qed.

Lemma flat_map_ext_Forall {A B} (f g : A → list B) (l : list A) :
  Forall (λ x, f x = g x) l → flat_map f l = flat_map g l.
Proof.
  induction 1 as [|x l Hx _ IH]; [done|].
  simpl. by rewrite Hx, IH.
Qed.

Lemma omap_cons_eq {A B} (f : A → option B) (x : A) (l : list A) :
  omap f (x :: l)
  = match f x with Some y => y :: omap f l | None => omap f l end.
Proof. reflexivity. Qed.

Lemma pairs_from_cons {A} (k : Z) (inc : bool) (a : A) (l : list A) :
  pairs_from k inc (a :: l)
  = (if inc then [(a, a)] else []) ++ map (λ b, (a, b)) l
    ++ pairs_from (k + 1) inc l.
Proof.
  unfold pairs_from. rewrite enumerate_from_cons.
  cbn [flat_map]. rewrite omap_cons_eq.
  assert (Hself : pair_cond inc (k, a) (k, a)
                  = if inc then Some (a, a) else None).
  { unfold pair_cond. simpl. rewrite bool_decide_eq_false_2 by lia.
    rewrite bool_decide_eq_true_2 by done. by destruct inc. }
  assert (Hhead : omap (pair_cond inc (k, a)) (enumerate_from (k + 1) l)
                  = map (λ b, (a, b)) l).
  { rewrite (omap_ext_Forall _ (λ x, Some (a, x.2))).
    - rewrite omap_Some_map.
      transitivity (map (λ b, (a, b)) (map snd (enumerate_from (k + 1) l))).
      + by rewrite map_map.
      + by rewrite enumerate_from_snd.
    - eapply Forall_impl; [apply (enumerate_from_index (k + 1) l)|].
      intros [j b] Hj. unfold pair_cond. simpl in *.
      rewrite bool_decide_eq_false_2 by lia.
      rewrite (bool_decide_eq_false_2 (k = j)) by lia.
      by rewrite andb_false_r. }
  assert (Htail :
    flat_map (λ ia, omap (pair_cond inc ia)
                      ((k, a) :: enumerate_from (k + 1) l))
      (enumerate_from (k + 1) l)
    = flat_map (λ ia, omap (pair_cond inc ia) (enumerate_from (k + 1) l))
        (enumerate_from (k + 1) l)).
  { apply flat_map_ext_Forall.
    eapply Forall_impl; [apply (enumerate_from_index (k + 1) l)|].
    intros [i a0] Hi. rewrite omap_cons_eq. unfold pair_cond at 1.
    simpl in *. by rewrite bool_decide_eq_true_2 by lia. }
  rewrite Hself, Hhead, Htail. by destruct inc.
Qed.

Lemma pairs_to_compare_from {A} (inc : bool) (l : list A) :
  pairs_to_compare inc l = pairs_from 1 inc l.
Proof.
  unfold pairs_to_compare, pairs_from.
  change (enumerate1 l) with (enumerate_from 1 l).
  apply flat_map_ext_Forall, Forall_forall. intros [i a] _.
  apply omap_ext_Forall, Forall_forall. intros [j b] _. done.
Qed.

Lemma pairs_from_all_pairs {A} (k : Z) (inc : bool) (l : list A) :
  pairs_from k inc l = all_pairs inc l.
Proof.
  revert k. induction l as [|a l IH]; intros k; [done|].
  rewrite pairs_from_cons, IH. done.
Qed.

(** X19. The double loop of [compare_scaffold] visits every unordered pair
    of samples exactly once, in the order of the list: each sample with
    each later one, and with itself only when self-comparisons are
    requested. For n samples that is n(n-1)/2 pairs, or n(n+1)/2 with
    self-comparisons. *)
Theorem pairs_to_compare_spec {A} (include_self_comparisons : bool)
    (samples : list A) :
  pairs_to_compare include_self_comparisons samples
  = all_pairs include_self_comparisons samples ∧
  let n := Z.of_nat (List.length samples) in
  2 * Z.of_nat (List.length
                  (pairs_to_compare include_self_comparisons samples))
  = if include_self_comparisons then n * (n + 1) else n * (n - 1).
Proof.
  assert (Heq : pairs_to_compare include_self_comparisons samples
                = all_pairs include_self_comparisons samples).
  { rewrite pairs_to_compare_from. apply pairs_from_all_pairs. }
  split; [done|]. rewrite Heq. clear Heq.
  induction samples as [|a l IH]; [by destruct include_self_comparisons|].
  cbn [all_pairs]. rewrite !length_app, length_map.
  cbn zeta in IH.
  destruct include_self_comparisons; simpl List.length in *;
    rewrite ?Nat2Z.inj_succ, !Nat2Z.inj_add; nia.
Qed.

(** ** Chunks of the scaffold list *)

Lemma py_slice_chunk {A} (l : list A) (i c : nat) :
  (0 < c)%nat →
  py_slice l (Z.of_nat i * Z.of_nat c) ((Z.of_nat i + 1) * Z.of_nat c)
  = take c (drop (i * c) l).
Proof.
  intros Hc. unfold py_slice.
  set (n := Z.of_nat (List.length l)).
  rewrite !bool_decide_eq_false_2 by nia.
  destruct (decide (i * c < List.length l)%nat) as [Hlt|Hge].
  - rewrite (Z.min_l (Z.of_nat i * Z.of_nat c)) by (unfold n; nia).
    replace (Z.to_nat (Z.of_nat i * Z.of_nat c)) with (i * c)%nat by nia.
    destruct (decide ((i + 1) * c ≤ List.length l)%nat) as [Hfull|Hpart].
    + rewrite Z.min_l by (unfold n; nia). f_equal. nia.
    + rewrite Z.min_r by (unfold n; nia).
      rewrite !take_ge; [done| |]; rewrite length_drop; unfold n; nia.
  - rewrite !Z.min_r by (unfold n; nia).
    rewrite Z.sub_diag. simpl.
    rewrite (drop_ge l (i * c)) by lia. by rewrite take_nil.
Qed.

Lemma concat_chunks {A} (l : list A) (c k : nat) :
  concat (map (λ i, take c (drop (i * c) l)) (seq 0 k)) = take (k * c) l.
Proof.
  induction k as [|k IH]; [done|].
  rewrite seq_S, map_app, concat_app, IH. simpl.
  rewrite app_nil_r, take_take_drop. f_equal. lia.
Qed.

(** X20. For a positive chunk size, [iterate_scaffold_chunks] yields
    len // chunkSize + 1 chunks, none longer than the chunk size, whose
    concatenation is the list; so the last chunk is empty when the chunk
    size divides the length. A chunk size of 0 raises
    [ZeroDivisionError]. *)
Theorem iterate_scaffold_chunks_spec {A} (l : list A) (chunkSize : Z) :
  (0 < chunkSize →
   ∃ chunks, iterate_scaffold_chunks l chunkSize = Ok chunks ∧
     concat chunks = l ∧
     Z.of_nat (List.length chunks)
     = Z.of_nat (List.length l) `div` chunkSize + 1 ∧
     Forall (λ ch, Z.of_nat (List.length ch) ≤ chunkSize) chunks ∧
     (Z.of_nat (List.length l) `mod` chunkSize = 0 → last chunks = Some [])) ∧
  (chunkSize = 0 → iterate_scaffold_chunks l chunkSize = Raise ZeroDivisionError).
Proof.
  split; [|intros ->; done].
  intros Hc. unfold iterate_scaffold_chunks.
  rewrite bool_decide_eq_false_2 by lia.
  set (n := Z.of_nat (List.length l)).
  set (c := Z.to_nat chunkSize).
  set (k := Z.to_nat (n `div` chunkSize)).
  assert (Hn : 0 ≤ n `div` chunkSize) by (apply Z.div_pos; unfold n; lia).
  assert (Hmap : map (λ i, py_slice l (i * chunkSize) ((i + 1) * chunkSize))
                   (seqZ 0 (n `div` chunkSize + 1))
                 = map (λ i, take c (drop (i * c) l)) (seq 0 (S k))).
  { unfold seqZ.
    replace (Z.to_nat (n `div` chunkSize + 1)) with (S k) by (unfold k; lia).
    change (map ?f ((λ i : nat, Z.of_nat i + 0) <$> ?xs))
      with (map f (map (λ i : nat, Z.of_nat i + 0) xs)).
    rewrite map_map. apply map_ext. intros i.
    rewrite Z.add_0_r.
    replace chunkSize with (Z.of_nat c) by (unfold c; lia).
    apply py_slice_chunk. unfold c. lia. }
  eexists. split; [reflexivity|]. rewrite Hmap.
  assert (Hdm := Z.div_mod n chunkSize ltac:(lia)).
  assert (Hm := Z.mod_pos_bound n chunkSize Hc).
  split; [|split; [|split]].
  - rewrite concat_chunks. apply take_ge. unfold k, c, n in *. nia.
  - rewrite length_map, length_seq. unfold k. lia.
  - apply Forall_forall. intros ch Hch.
    apply list_elem_of_fmap in Hch as (i & -> & _).
    rewrite length_take. unfold c. lia.
  - intros Hz. rewrite seq_S, map_app. cbn [map]. rewrite last_snoc.
    f_equal. simpl.
    rewrite drop_ge; [by rewrite take_nil|]. unfold k, c, n in *. nia.
Qed.

(** ** Validation of the inputs *)







(** ** The greedy path *)

Lemma first_match_raises (g_ani g_cov : Q) (Ddb : list Ddb_row) :
  Ddb ≠ [] → first_match g_ani g_cov Ddb = Raise KeyError.
Proof. destruct Ddb as [|row rest]; [done|]. reflexivity. Qed.

Lemma compare_Sprofiles_wrapper_rows gen future_raises name2SNVprofile IS1
    IS_list name1 names scaffolds_to_compare (s2l : gmap string Z)
    BIN_LENGTH kwargs Ddb Ndb :
  compare_Sprofiles_wrapper gen future_raises name2SNVprofile IS1 IS_list
    name1 names scaffolds_to_compare s2l BIN_LENGTH kwargs = Ok (Ddb, Ndb) →
  Ddb ≠ [].
Proof.
  unfold compare_Sprofiles_wrapper.
  destruct (rmapM _ (zip IS_list names)) as [rs|e]; simpl; [|discriminate].
  case_decide as Hlen; [discriminate|].
  intros [= <- _]. destruct rs; [done|discriminate].
Qed.

Lemma greedy_step_raises gen future_raises name2SNVprofile name2Sprofile
    scaffolds_to_compare (s2l : gmap string Z) BIN_LENGTH kwargs st cur :
  ∃ e, greedy_step gen future_raises name2SNVprofile name2Sprofile
         scaffolds_to_compare s2l BIN_LENGTH kwargs st cur = Raise e.
Proof.
  unfold greedy_step. destruct cur as [name IS].
  destruct (rmapM _ (seqZ 0 (clusters st))) as [compare_names|e]; simpl;
    [|by eexists].
  destruct (rmapM (dict_get name2Sprofile) compare_names) as [To_compare|e];
    simpl; [|by eexists].
  destruct (compare_Sprofiles_wrapper _ _ _ _ _ _ _ _ _ _ _)
    as [[Ddb Ndb]|e] eqn:Hw; simpl; [|by eexists].
  apply compare_Sprofiles_wrapper_rows in Hw.
  rewrite first_match_raises by done. simpl. by eexists.
Qed.

(** X22. [greedy_main] never returns normally and never stores or writes
    anything: every run ends in an exception, [IndexError] when there is
    no name and [AssertionError] when a name is repeated. (Otherwise the
    first iteration raises, at the latest on the look-up of the column
    'popANI', which the parsed table does not have; and with a single
    sample the concatenation of no table raises.) *)
Theorem greedy_main_never_returns gen future_raises name2SNVprofile names
    Sprofiles scaffolds_to_compare (s2l : gmap string Z) kwargs :
  ∃ e, greedy_main gen future_raises name2SNVprofile names Sprofiles
         scaffolds_to_compare s2l kwargs
       = ([ECall "greedy_main"], Raise e) ∧
       (names = [] → e = IndexError) ∧
       (names ≠ [] → ¬ NoDup names → e = AssertionError).
Proof.
  unfold greedy_main.
  destruct names as [|name0 names'].
  { exists IndexError. by repeat split. }
  case_decide as Hnd.
  2: { exists AssertionError. by repeat split. }
  match goal with
  | |- ∃ e, ?run = _ ∧ _ =>
      cut (∃ e, run = ([ECall "greedy_main"], Raise e))
  end.
  { intros [e He]. exists e. split; [exact He|].
    split; [discriminate|]. intros _ Hn. by destruct Hn. }
  cbn [tail].
  destruct (match kw_scaffolds kwargs with
            | Some scaffolds => _
            | None => _
            end) as [BIN_LENGTH|e]; [|by eexists].
  unfold mbind at 1, result_bind at 1.
  destruct (zip names' (tail Sprofiles)) as [|cur rest] eqn:Hzip.
  - cbn [rfoldl]. rewrite decide_True by done. by eexists.
  - cbn [rfoldl].
    destruct (greedy_step_raises gen future_raises name2SNVprofile
                (zip (name0 :: names') Sprofiles) scaffolds_to_compare s2l
                BIN_LENGTH kwargs
                {| name2cluster := [(name0, 0)];
                   cluster2rep := {[0 := name0]}; clusters := 1 |} cur)
      as [e ->].
    by eexists.
Qed.

(** ** The frequency test *)

(** X23. With a minimum frequency above 1, such as the 5 that
    [compare_scaffold] uses when no [min_freq] is given, no count within a
    positive depth passes the present test. *)
Theorem is_present_min_freq_above_one (counts total : Z) (model : Z → Z)
    (min_freq : Q) :
  0 ≤ counts ≤ total → 0 < total → (1 < min_freq)%Q →
  is_present counts total model min_freq = Ok false.
Proof.
  intros Hc Ht Hf. unfold is_present.
  case_bool_decide; [|done].
  rewrite bool_decide_eq_false_2 by lia. f_equal.
  destruct (Qle_bool min_freq (qdiv counts total)) eqn:Hle; [|done].
  apply Qle_bool_iff in Hle.
  destruct (qdiv_unit_interval counts total Hc Ht) as [_ H1].
  exfalso. apply (Qlt_irrefl 1).
  eapply Qlt_le_trans; [exact Hf|]. eapply Qle_trans; [exact Hle|exact H1].
Qed.

Lemma is_present_min_freq_above_one_witness :
  is_present 4 10 ex_model (inject_Z 5) = Ok false.
Proof.
  apply (is_present_min_freq_above_one 4 10 ex_model (inject_Z 5));
    [lia|lia|done].
Defined.

(** ** What the comparison of one pair can raise *)






(** ** The merged table of a level *)




